(** * ModuWeb-EasyPyEnv: the task-progress monitor and the dependency list state

    A shallow embedding of the client-side JavaScript of the package manager:
    - [Monitor]: [monitorTaskProgress] from [js/modules/ui.js] together with the
      production fetcher [getTaskProgress] from [js/modules/api.js];
    - [ListState]: [renderDependencyList], the selection set and
      [filterDependencies];
    - [Ranking]: the scoring and ordering of [searchDependencies];
    - [Sync]: the completion callbacks that refresh the list after a mutation.

    JavaScript numbers that hold integers are [Z], strings are [string],
    the [Set] of selected names is a [gset string], and the browser's timers
    are written out as an explicit queue with due times.  A fetch settles
    by an event of its own, so that timers can fire while it is in flight. *)

From Stdlib Require Import ZArith Lia Bool List String Ascii Sorted Permutation.
From stdpp Require Import base list strings gmap sorting pretty.
Import ListNotations.

(** ** JavaScript helpers *)

Module Js.

(** [s || d] for a possibly undefined string: the empty string is falsy. *)
Definition orElse (s : option string) (d : string) : string :=
  match s with
  | Some EmptyString | None => d
  | Some v => v
  end.

(** Truthiness of a possibly undefined string. *)
Definition truthy (s : option string) : bool :=
  match s with
  | Some EmptyString | None => false
  | Some _ => true
  end.

(** [Array.prototype.sort(cmp)]: a stable sort (ECMAScript 2019).  An element
    is placed before the first later element it does not compare greater
    than, so equal elements keep their input order. *)
Section Sort.
Context {A : Type} (cmp : A -> A -> Z).

Fixpoint insert (x : A) (l : list A) : list A :=
  match l with
  | [] => [x]
  | y :: l' => if (cmp x y <=? 0)%Z then x :: y :: l' else y :: insert x l'
  end.

Fixpoint sort (l : list A) : list A :=
  match l with
  | [] => []
  | x :: l' => insert x (sort l')
  end.
End Sort.

(** Comparison of strings by their code units: what [localeCompare] gives
    for names written with lowercase letters and digits only. *)
Definition compareCodeUnits (a b : string) : Z :=
  match String.compare a b with
  | Lt => (-1)%Z
  | Eq => 0%Z
  | Gt => 1%Z
  end.

End Js.

(** ** The task-progress monitor ([ui.js], [monitorTaskProgress]) *)

Module Monitor.
Local Open Scope Z_scope.

(** One element of [progress.errors]: a structured record or a plain string
    (the old format). *)
Inductive ErrorItem :=
| ErrObject (package err : string) (details : option string)
| ErrString (s : string).

(** The object served by [/api/task-progress/{taskId}]; an absent field is
    [None]. *)
Record Progress := mkProgress {
  p_error : option string;
  p_progress : option Z;
  p_status : option string;
  p_message : option string;
  p_errors : option (list ErrorItem) }.

(** [{}]. *)
Definition emptyObject : Progress := mkProgress None None None None None.

(** What a progress fetcher can hand back.  A truthy primitive behaves as
    [JsObject emptyObject]: every property read on it is undefined. *)
Inductive JsValue :=
| JsUndefined
| JsNull
| JsFalsy              (* false, 0, NaN or the empty string *)
| JsObject (p : Progress).

(** Outcome of [await getProgressFunc(taskId)]. *)
Inductive Settled :=
| Rejected (message : string)
| Resolved (v : JsValue).

(** The third argument of [monitorTaskProgress]. *)
Inductive Callback :=
| NotAFunction
| Fn (throws : bool).

Inductive NoticeType := success | warning | error.

(** Calls that leave the monitor, in the order they happen. *)
Inductive Effect :=
| UpdateProgressBar (percent : Z) (message : option string)
| HideProgressBar
| ShowNotification (message : string) (type : NoticeType)
| ShowErrorDetailsModal (structuredErrors : list ErrorItem)
| OnComplete (progressData : Progress).

(** The arguments captured by the closure that [cleanupAndComplete] hands to
    [setTimeout(..., 1000)]. *)
Record Completion := mkCompletion {
  c_message : string;
  c_isError : bool;
  c_progressData : option Progress }.

(** The closure variables of one monitor, its three kinds of timers (a
    pending timer is its due time in milliseconds), and the effects so far. *)
Record State := mkState {
  lastProgressPercent : Z;
  stagnantCount : Z;
  consecutiveErrorCount : Z;
  taskCompleted : bool;
  safetyTimeout : option Z;
  intervalId : option Z;
  delayed : list (Z * Completion);
  now : Z;
  calls : nat;
  trace : list Effect }.

Definition set_lastProgressPercent (v : Z) (st : State) : State :=
  mkState v (stagnantCount st) (consecutiveErrorCount st) (taskCompleted st)
    (safetyTimeout st) (intervalId st) (delayed st) (now st) (calls st) (trace st).
Definition set_stagnantCount (v : Z) (st : State) : State :=
  mkState (lastProgressPercent st) v (consecutiveErrorCount st) (taskCompleted st)
    (safetyTimeout st) (intervalId st) (delayed st) (now st) (calls st) (trace st).
Definition set_consecutiveErrorCount (v : Z) (st : State) : State :=
  mkState (lastProgressPercent st) (stagnantCount st) v (taskCompleted st)
    (safetyTimeout st) (intervalId st) (delayed st) (now st) (calls st) (trace st).
Definition set_taskCompleted (v : bool) (st : State) : State :=
  mkState (lastProgressPercent st) (stagnantCount st) (consecutiveErrorCount st) v
    (safetyTimeout st) (intervalId st) (delayed st) (now st) (calls st) (trace st).
Definition set_safetyTimeout (v : option Z) (st : State) : State :=
  mkState (lastProgressPercent st) (stagnantCount st) (consecutiveErrorCount st)
    (taskCompleted st) v (intervalId st) (delayed st) (now st) (calls st) (trace st).
Definition set_intervalId (v : option Z) (st : State) : State :=
  mkState (lastProgressPercent st) (stagnantCount st) (consecutiveErrorCount st)
    (taskCompleted st) (safetyTimeout st) v (delayed st) (now st) (calls st) (trace st).
Definition set_delayed (v : list (Z * Completion)) (st : State) : State :=
  mkState (lastProgressPercent st) (stagnantCount st) (consecutiveErrorCount st)
    (taskCompleted st) (safetyTimeout st) (intervalId st) v (now st) (calls st) (trace st).
Definition set_now (v : Z) (st : State) : State :=
  mkState (lastProgressPercent st) (stagnantCount st) (consecutiveErrorCount st)
    (taskCompleted st) (safetyTimeout st) (intervalId st) (delayed st) v (calls st) (trace st).
Definition set_calls (v : nat) (st : State) : State :=
  mkState (lastProgressPercent st) (stagnantCount st) (consecutiveErrorCount st)
    (taskCompleted st) (safetyTimeout st) (intervalId st) (delayed st) (now st) v (trace st).
Definition emit (e : Effect) (st : State) : State :=
  mkState (lastProgressPercent st) (stagnantCount st) (consecutiveErrorCount st)
    (taskCompleted st) (safetyTimeout st) (intervalId st) (delayed st) (now st) (calls st)
    (trace st ++ [e]).

(** [updateProgressBar(percent, message)]; the bar itself shows
    [safePercent]. *)
Definition safePercent (percent : Z) : Z := Z.min (Z.max 0 percent) 100.
Definition updateProgressBar (percent : Z) (message : option string) : State -> State :=
  emit (UpdateProgressBar percent message).

Definition clearInterval : State -> State := set_intervalId None.
Definition clearTimeout : State -> State := set_safetyTimeout None.

(** [setTimeout(closure, 1000)] inside [cleanupAndComplete]. *)
Definition setTimeout (c : Completion) (st : State) : State :=
  set_delayed (delayed st ++ [(now st + 1000, c)]) st.

Definition defaultMessage : string := "处理完成".

(** [cleanupAndComplete(message, isError, progressData)], with the default
    arguments written out at the call sites. *)
Definition cleanupAndComplete (message : string) (isError : bool)
    (progressData : option Progress) (st : State) : State :=
  if taskCompleted st then st
  else
    let st := set_taskCompleted true st in
    let st := clearInterval st in
    let st := clearTimeout st in
    let st := updateProgressBar 100 (Some (Js.orElse (Some message) defaultMessage)) st in
    setTimeout (mkCompletion message isError progressData) st.

Definition isObject (e : ErrorItem) : bool :=
  match e with ErrObject _ _ _ => true | ErrString _ => false end.

Section Instance.
(** [getProgressFunc k] is what the [k]-th call of the fetcher settles to,
    whenever that happens. *)
Variable getProgressFunc : nat -> Settled.
Variable onComplete : Callback.

(** The closure run one second after [cleanupAndComplete]. *)
Definition delayedCallback (c : Completion) (st : State) : State :=
  let st := emit HideProgressBar st in
  let st :=
    if c_isError c then
      emit (ShowNotification (Js.orElse (Some (c_message c)) "任务出错") error) st
    else
      match c_progressData c with
      | Some {| p_errors := Some ((_ :: _) as errs) |} =>
          let structuredErrors := List.filter isObject errs in
          match structuredErrors with
          | _ :: _ =>
              let st := emit (ShowErrorDetailsModal structuredErrors) st in
              emit (ShowNotification
                      ("任务完成，但有 " +:+ pretty (List.length structuredErrors) +:+ " 个错误")
                      warning) st
          | [] =>
              emit (ShowNotification
                      ("任务完成，但有 " +:+ pretty (List.length errs) +:+ " 个错误")
                      warning) st
          end
      | _ => emit (ShowNotification "任务成功完成" success) st
      end in
  match onComplete with
  | NotAFunction => st
  | Fn throws =>
      let st := emit (OnComplete (default emptyObject (c_progressData c))) st in
      if throws then emit (ShowNotification "完成后处理出错" error) st else st
  end.

(** The callback of the 60-second [setTimeout]. *)
Definition safetyCallback (st : State) : State :=
  if negb (taskCompleted st) then cleanupAndComplete defaultMessage false None st
  else st.

(** The part of the interval callback that handles a truthy response
    without an error field. *)
Definition handleProgress (p : Progress) (st : State) : State :=
  let reported := default 0 (p_progress p) in
  let '(displayPercent, st) :=
    if reported <? lastProgressPercent st
    then (lastProgressPercent st, st)
    else (reported, set_lastProgressPercent reported st) in
  let st := updateProgressBar displayPercent (p_message p) st in
  let isCompleted :=
    match p_status p with Some s => String.eqb s "completed" | None => false end
    || (100 <=? displayPercent) in
  let finish (st : State) : State :=
    if isCompleted
    then cleanupAndComplete (Js.orElse (p_message p) defaultMessage) false (Some p) st
    else st in
  if displayPercent =? lastProgressPercent st then
    let st := set_stagnantCount (stagnantCount st + 1) st in
    if (displayPercent =? 100) && (2 <? stagnantCount st) then
      cleanupAndComplete defaultMessage false None st
    else
      let st :=
        if (10 <? stagnantCount st) && (displayPercent <? 100) then
          let statusMessage := Js.orElse (p_message p) "正在处理..." in
          updateProgressBar displayPercent
            (Some (statusMessage +:+ " (处理中，请耐心等待)")) st
        else st in
      finish st
  else
    finish (set_stagnantCount 0 st).

(** The interval callback up to its [await] (ui.js 315-325): a completed
    monitor clears the interval, a running one calls the fetcher. *)
Definition intervalFired (st : State) : State :=
  if taskCompleted st then clearInterval st else set_calls (S (calls st)) st.

(** The interval callback from its [await] on (ui.js 325-393), run when the
    fetch has settled.  [taskCompleted] is not looked at again. *)
Definition answered (settled : Settled) (st : State) : State :=
  match settled with
  | Rejected _ =>
      let st := set_consecutiveErrorCount (consecutiveErrorCount st + 1) st in
      if 3 <=? consecutiveErrorCount st
      then cleanupAndComplete "获取进度失败，任务可能已完成" true None st
      else st
  | Resolved v =>
      let st := set_consecutiveErrorCount 0 st in
      match v with
      | JsObject p =>
          if Js.truthy (p_error p) then
            cleanupAndComplete ("获取进度失败: " +:+ default "" (p_error p)) true None st
          else handleProgress p st
      | _ =>
          let st := set_consecutiveErrorCount (consecutiveErrorCount st + 1) st in
          if 3 <=? consecutiveErrorCount st
          then cleanupAndComplete "无法获取进度信息，任务可能已完成" true None st
          else st
      end
  end.

(** One firing of [setInterval(..., 500)] whose fetch settles before
    anything else happens: the two parts of the callback back to back. *)
Definition intervalCallback (st : State) : State :=
  if taskCompleted st then clearInterval st
  else answered (getProgressFunc (calls st)) (set_calls (S (calls st)) st).

(** ** The timers

    The browser runs the pending timer with the earliest due time.  The
    only two timers that can be due together are the safety timeout and the
    120th interval tick, at 60000 ms; [intervalFirst] says which of the two
    the browser picks then. *)
Inductive Timer := SafetyTimer | IntervalTimer | DelayedTimer.

Definition earlier (a b : option (Z * Timer)) : option (Z * Timer) :=
  match a, b with
  | Some (ta, _), Some (tb, _) => if ta <=? tb then a else b
  | Some _, None => a
  | None, _ => b
  end.

Definition pending (intervalFirst : bool) (st : State) : option (Z * Timer) :=
  let s := (fun t => (t, SafetyTimer)) <$> safetyTimeout st in
  let i := (fun t => (t, IntervalTimer)) <$> intervalId st in
  let d := (fun tc => (fst tc, DelayedTimer)) <$> head (delayed st) in
  earlier (if intervalFirst then earlier i s else earlier s i) d.

(** Run the next timer, its fetch settling at once; [None] when no timer is
    pending. *)
Definition runTimer (intervalFirst : bool) (st : State) : option State :=
  match pending intervalFirst st with
  | None => None
  | Some (t, SafetyTimer) =>
      Some (safetyCallback (set_safetyTimeout None (set_now t st)))
  | Some (t, IntervalTimer) =>
      Some (intervalCallback (set_intervalId (Some (t + 500)) (set_now t st)))
  | Some (t, DelayedTimer) =>
      match delayed st with
      | (_, c) :: rest => Some (delayedCallback c (set_delayed rest (set_now t st)))
      | [] => None
      end
  end.

(** The runs in which every fetch settles before the next timer fires. *)
Fixpoint eventLoop (intervalFirst : bool) (fuel : nat) (st : State) : State :=
  match fuel with
  | O => st
  | S fuel' =>
      match runTimer intervalFirst st with
      | None => st
      | Some st' => eventLoop intervalFirst fuel' st'
      end
  end.

(** [monitorTaskProgress(taskId, getProgressFunc, onComplete)]: the closure
    variables are initialised and the two timers are registered. *)
Definition monitorTaskProgress : State :=
  {| lastProgressPercent := 0;
     stagnantCount := 0;
     consecutiveErrorCount := 0;
     taskCompleted := false;
     safetyTimeout := Some 60000;
     intervalId := Some 500;
     delayed := [];
     now := 0;
     calls := 0;
     trace := [] |}.

(** The first [n] interval ticks, nothing else firing in between. *)
Fixpoint ticks (n : nat) (st : State) : State :=
  match n with
  | O => st
  | S n' => ticks n' (intervalCallback st)
  end.

(** ** Fetches that take their time

    [await getProgressFunc(taskId)] gives the control back to the browser.
    While a fetch is in flight the interval fires again and starts the next
    fetch, the safety timeout can fire, and [answered] runs when the answer
    comes, whether the monitor has completed by then or not.  [inFlight]
    holds the numbers of the fetches that have not settled; [now] is the due
    time of the timer that ran last. *)
Record Browser := mkBrowser {
  monitor : State;
  inFlight : list nat }.

Inductive Event :=
| TimerFires (intervalFirst : bool)   (* the browser runs the timer due first *)
| FetchSettles (k : nat).             (* the promise of the k-th fetch settles *)

Definition timerFires (intervalFirst : bool) (b : Browser) : Browser :=
  let st := monitor b in
  match pending intervalFirst st with
  | None => b
  | Some (t, SafetyTimer) =>
      mkBrowser (safetyCallback (set_safetyTimeout None (set_now t st))) (inFlight b)
  | Some (t, IntervalTimer) =>
      let st := set_intervalId (Some (t + 500)) (set_now t st) in
      mkBrowser (intervalFired st)
        (if taskCompleted st then inFlight b else inFlight b ++ [calls st])
  | Some (t, DelayedTimer) =>
      match delayed st with
      | (_, c) :: rest =>
          mkBrowser (delayedCallback c (set_delayed rest (set_now t st))) (inFlight b)
      | [] => b
      end
  end.

Definition fetchSettles (k : nat) (b : Browser) : Browser :=
  if existsb (Nat.eqb k) (inFlight b) then
    mkBrowser (answered (getProgressFunc k) (monitor b))
      (List.filter (fun j => negb (Nat.eqb k j)) (inFlight b))
  else b.

Definition step (b : Browser) (e : Event) : Browser :=
  match e with
  | TimerFires intervalFirst => timerFires intervalFirst b
  | FetchSettles k => fetchSettles k b
  end.

(** The monitor after the given events, in their order. *)
Definition runEvents (events : list Event) : Browser :=
  List.fold_left step events (mkBrowser monitorTaskProgress []).

End Instance.

Definition isTimer (e : Event) : bool :=
  match e with TimerFires _ => true | FetchSettles _ => false end.

(** How many timers the browser was to run. *)
Definition timerEvents (events : list Event) : nat :=
  List.length (List.filter isTimer events).

(** No timer of the monitor is pending. *)
Definition idle (st : State) : bool :=
  match safetyTimeout st, intervalId st, delayed st with
  | None, None, [] => true
  | _, _, _ => false
  end.

(** The events of [eventLoop]: every timer is followed by the answer to the
    fetch that it may have started. *)
Fixpoint promptEvents (getProgressFunc : nat -> Settled) (onComplete : Callback)
    (intervalFirst : bool) (fuel : nat) (st : State) : list Event :=
  match fuel with
  | O => []
  | S fuel' =>
      match runTimer getProgressFunc onComplete intervalFirst st with
      | None => []
      | Some st' =>
          TimerFires intervalFirst :: FetchSettles (calls st)
            :: promptEvents getProgressFunc onComplete intervalFirst fuel' st'
      end
  end.

(** ** The production fetcher ([api.js], [getTaskProgress]) *)









Definition isOnComplete (e : Effect) : bool :=
  match e with OnComplete _ => true | _ => false end.

(** How often the completion callback has been invoked. *)
Definition onCompleteCount (st : State) : nat :=
  List.length (List.filter isOnComplete (trace st)).

(** ** Observations on a run *)

Section Observations.
Variable getProgressFunc : nat -> Settled.

(** The response that the next tick treats as a progress report: the
    monitor is running, the fetch resolved to a truthy value, and the value
    has no truthy [error] field. *)
Definition processed (st : State) : option Progress :=
  if taskCompleted st then None
  else
    match getProgressFunc (calls st) with
    | Resolved (JsObject p) => if Js.truthy (p_error p) then None else Some p
    | _ => None
    end.

(** [progress.progress || 0]. *)
Definition reported (p : Progress) : Z := default 0 (p_progress p).

Definition firstBar (es : list Effect) : option Z :=
  match es with
  | UpdateProgressBar percent _ :: _ => Some percent
  | _ => None
  end.

(** The percentage that a tick hands to its first [updateProgressBar]
    call, for a tick that processes a progress report. *)
Definition displayed (st : State) : option Z :=
  match processed st with
  | Some _ =>
      firstBar (drop (List.length (trace st))
                  (trace (intervalCallback getProgressFunc st)))
  | None => None
  end.

(** The reported and the displayed values of the first [n] ticks. *)
Fixpoint reportedValues (n : nat) (st : State) : list Z :=
  match n with
  | O => []
  | S n' =>
      option_list (reported <$> processed st)
        ++ reportedValues n' (intervalCallback getProgressFunc st)
  end.

Fixpoint displayedValues (n : nat) (st : State) : list Z :=
  match n with
  | O => []
  | S n' =>
      option_list (displayed st)
        ++ displayedValues n' (intervalCallback getProgressFunc st)
  end.
End Observations.

(** [max(lastDisplayed, reported)] along a sequence of reports. *)
Fixpoint runningMax (lastDisplayed : Z) (reports : list Z) : list Z :=
  match reports with
  | [] => []
  | r :: reports' => Z.max lastDisplayed r :: runningMax (Z.max lastDisplayed r) reports'
  end.

(** A fetcher that reports the given percentages with status running. *)
Definition reporting (percentages : list Z) (k : nat) : Settled :=
  match percentages !! k with
  | Some n => Resolved (JsObject (mkProgress None (Some n) (Some "running") None None))
  | None => Resolved JsUndefined
  end.

(** What holds of a monitor between two timer callbacks: while it runs, both
    timers are pending and nothing has been scheduled or called; once it has
    completed, both timers are gone and the one delayed closure is either
    still pending or has called [onComplete]. *)
Definition invariant (st : State) : Prop :=
  if taskCompleted st then
    safetyTimeout st = None /\ intervalId st = None
    /\ (List.length (delayed st) + onCompleteCount st = 1)%nat
  else
    safetyTimeout st = Some 60000
    /\ (exists t, intervalId st = Some t /\ t <= 60500)
    /\ delayed st = [] /\ onCompleteCount st = 0%nat.

(** Milliseconds of timer activity that are left at most. *)
Definition remaining (st : State) : Z :=
  if taskCompleted st then 500 * Z.of_nat (List.length (delayed st))
  else 62000 - default 0 (intervalId st).

(** The percentages handed to [updateProgressBar] so far, in order. *)
Definition barPercent (e : Effect) : option Z :=
  match e with UpdateProgressBar percent _ => Some percent | _ => None end.
Definition bars (st : State) : list Z := omap barPercent (trace st).

(** What one execution of the body of [cleanupAndComplete] does. *)
Definition fired (st st' : State) : Prop :=
  taskCompleted st' = true /\ safetyTimeout st' = None /\ intervalId st' = None
  /\ (exists c, delayed st' = delayed st ++ [(now st + 1000, c)])
  /\ onCompleteCount st' = onCompleteCount st.

(** A callback that changes neither the flag, nor a timer, nor the count. *)
Definition quiet (st st' : State) : Prop :=
  taskCompleted st' = taskCompleted st /\ safetyTimeout st' = safetyTimeout st
  /\ intervalId st' = intervalId st /\ delayed st' = delayed st
  /\ onCompleteCount st' = onCompleteCount st.

End Monitor.

(** ** The dependency list and the selection set ([ui.js], [dependency-manager.js]) *)

Module ListState.
Local Open Scope Z_scope.

(** One element of the array served by [/api/dependencies]. *)
Record Entry := mkEntry {
  name : string;
  version : string;
  latestVersion : option string;
  isLatest : bool;
  isSystem : bool;
  isAppRequired : bool;
  isCore : bool;
  isAIModel : bool;
  description : option string }.

(** [style.display] of a list item. *)
Inductive Display := DisplayDefault | DisplayNone | DisplayFlex.

(** A [.dependency-item] element: [dataset.name], the classes that the code
    reads, and its display style. *)
Record Item := mkItem {
  data_name : string;
  cls_system : bool;
  cls_core : bool;
  cls_ai_model : bool;
  cls_app_required : bool;
  cls_selected : bool;
  display : Display;
  col_version : string }.

(** The module-level variables of [ui.js], the children of
    [#dependency-list] ([None] when the element is missing from the page),
    [dependencyHandler.originalOrder] and the select-all checkbox. *)
Record Store := mkStore {
  allDependencies : list Entry;
  selectedDependencies : gset string;
  listElement : option (list Item);
  originalOrder : list Item;
  selectAll : bool }.

Definition set_display (d : Display) (it : Item) : Item :=
  mkItem (data_name it) (cls_system it) (cls_core it) (cls_ai_model it)
    (cls_app_required it) (cls_selected it) d (col_version it).
Definition set_selected (b : bool) (it : Item) : Item :=
  mkItem (data_name it) (cls_system it) (cls_core it) (cls_ai_model it)
    (cls_app_required it) b (display it) (col_version it).

(** The element built for one entry by the [forEach] of
    [renderDependencyList]. *)
Definition renderItem (selected : gset string) (dep : Entry) : Item :=
  {| data_name := name dep;
     cls_system := isSystem dep;
     cls_core := isCore dep;
     cls_ai_model := isAIModel dep;
     cls_app_required := isAppRequired dep;
     cls_selected := bool_decide (name dep ∈ selected);
     display := DisplayDefault;
     col_version := version dep |}.

Section Render.
(** [String.prototype.localeCompare] of the browser's locale. *)
Variable localeCompare : string -> string -> Z.

(** The comparator handed to [dependencies.sort]. *)
Definition compareDependencies (a b : Entry) : Z :=
  if isSystem a && negb (isSystem b) then -1
  else if negb (isSystem a) && isSystem b then 1
  else if isAppRequired a && negb (isAppRequired b) then -1
  else if negb (isAppRequired a) && isAppRequired b then 1
  else if isCore a && negb (isCore b) then -1
  else if negb (isCore a) && isCore b then 1
  else if isAIModel a && negb (isAIModel b) then -1
  else if negb (isAIModel a) && isAIModel b then 1
  else localeCompare (name a) (name b).

(** [renderDependencyList(dependencies)].  [allDependencies] is the very
    array that is sorted in place afterwards; the markup inside an item and
    the state of the batch buttons are left out. *)
Definition renderDependencyList (dependencies : list Entry) (st : Store) : Store :=
  match listElement st with
  | None =>
      mkStore dependencies (selectedDependencies st) None (originalOrder st) (selectAll st)
  | Some _ =>
      if (List.length dependencies =? 0)%nat then
        mkStore dependencies (selectedDependencies st) (Some []) (originalOrder st)
          (selectAll st)
      else
        let sorted := Js.sort compareDependencies dependencies in
        mkStore sorted (selectedDependencies st)
          (Some (List.map (renderItem (selectedDependencies st)) sorted))
          (originalOrder st) (selectAll st)
  end.
End Render.

(** The listener of [dependency-selection-changed]. *)
Definition selectionChanged (packageName : string) (selected : bool)
    (sel : gset string) : gset string :=
  if selected then {[packageName]} ∪ sel else sel ∖ {[packageName]}.

(** [clearSelection()]. *)
Definition clearSelection (st : Store) : Store :=
  mkStore (allDependencies st) ∅
    ((fun items => List.map (set_selected false) items) <$> listElement st)
    (originalOrder st) false.

(** The [switch (filterType)] of [filterDependencies]. *)
Definition shouldShow (filterType : string) (it : Item) : bool :=
  if String.eqb filterType "system" then cls_system it
  else if String.eqb filterType "app" then cls_app_required it
  else if String.eqb filterType "ai" then cls_ai_model it
  else if String.eqb filterType "core" then cls_core it
  else if String.eqb filterType "other" then
    negb (cls_system it) && negb (cls_app_required it)
    && negb (cls_core it) && negb (cls_ai_model it)
  else true.

(** The body of the [forEach] of [filterDependencies] for one item; the
    dispatched event reaches [selectionChanged] at once. *)
Definition filterItem (filterType : string) (acc : list Item * gset string) (it : Item)
    : list Item * gset string :=
  let '(done, sel) := acc in
  let wasSelected := cls_selected it in
  let packageName := data_name it in
  if shouldShow filterType it then (done ++ [set_display DisplayFlex it], sel)
  else if wasSelected && negb (String.eqb packageName "") then
    (done ++ [set_selected false (set_display DisplayNone it)],
     selectionChanged packageName false sel)
  else (done ++ [set_display DisplayNone it], sel).

(** [filterDependencies(filterType)]. *)
Definition filterDependencies (filterType : string) (st : Store) : Store :=
  let items := default [] (listElement st) in
  let '(items', sel') :=
    List.fold_left (filterItem filterType) items ([], selectedDependencies st) in
  mkStore (allDependencies st) sel'
    ((fun _ => items') <$> listElement st) (originalOrder st) false.

(** The selected class of every item mirrors the selection set, as it does
    after [renderDependencyList]. *)
Definition inSync (items : list Item) (sel : gset string) : Prop :=
  Forall (fun it => cls_selected it = bool_decide (data_name it ∈ sel)) items.

(** The precedence of the list as the specification words it: system
    entries first, then entries required by the application, then core
    entries, then AI entries, and alphabetical order of the names among
    entries that agree on all four flags. *)
Definition precedes (localeCompare : string -> string -> Z) (a b : Entry) : Prop :=
  (isSystem a = true /\ isSystem b = false)
  \/ (isSystem a = isSystem b
      /\ ((isAppRequired a = true /\ isAppRequired b = false)
          \/ (isAppRequired a = isAppRequired b
              /\ ((isCore a = true /\ isCore b = false)
                  \/ (isCore a = isCore b
                      /\ ((isAIModel a = true /\ isAIModel b = false)
                          \/ (isAIModel a = isAIModel b
                              /\ (localeCompare (name a) (name b) <= 0)%Z))))))).

(** The item that [filterDependencies] leaves for one item. *)
Definition filtered (filterType : string) (it : Item) : Item :=
  if shouldShow filterType it then set_display DisplayFlex it
  else if cls_selected it && negb (String.eqb (data_name it) "") then
    set_selected false (set_display DisplayNone it)
  else set_display DisplayNone it.

(** The names that [filterDependencies] takes out of the selection. *)
Definition deselected (filterType : string) (items : list Item) : list string :=
  List.map data_name
    (List.filter
       (fun it => negb (shouldShow filterType it)
                  && cls_selected it && negb (String.eqb (data_name it) ""))
       items).

(** The four flags as one number: smaller comes first. *)
Definition flagRank (e : Entry) : Z :=
  (if isSystem e then 0 else 8) + (if isAppRequired e then 0 else 4)
  + (if isCore e then 0 else 2) + (if isAIModel e then 0 else 1).

(** Sample entries, items and an empty page. *)
Definition numpy : Entry :=
  mkEntry "numpy" "1.26.4" (Some "2.0.0") false false false true false None.

Definition pip : Entry :=
  mkEntry "pip" "24.0" None true true false false false None.
Definition flask : Entry :=
  mkEntry "flask" "3.0.3" None true false true false false None.
Definition torch : Entry :=
  mkEntry "torch" "2.3.0" None true false false false true None.
Definition page : Store := mkStore [] ∅ (Some []) [] false.

Definition numpyItem : Item :=
  mkItem "numpy" false true false false true DisplayDefault "1.26.4".
Definition pipItem : Item :=
  mkItem "pip" true false false false false DisplayDefault "24.0".

End ListState.

(** ** Search ranking ([dependency-manager.js], [searchDependencies]) *)

Module Ranking.
Import ListState.
Local Open Scope Z_scope.

(** [toLowerCase] on the ASCII letters that package names are made of. *)
Definition lowerAscii (c : ascii) : ascii :=
  let n := nat_of_ascii c in
  if ((65 <=? n) && (n <=? 90))%nat then ascii_of_nat (n + 32) else c.

Fixpoint toLowerCase (s : string) : string :=
  match s with
  | EmptyString => EmptyString
  | String c s' => String (lowerAscii c) (toLowerCase s')
  end.

Definition len (s : string) : Z := Z.of_nat (String.length s).

Definition startsWith (s q : string) : bool := String.prefix q s.
Definition indexOf (s q : string) : option nat := String.index 0 q s.

(** The score computed inside [items.map]; every item that
    [renderDependencyList] builds has a [.col-name] child. *)
Definition score (query : string) (it : Item) : Z :=
  let packageName := toLowerCase (data_name it) in
  if String.eqb packageName "" then 0
  else
    let lowerQuery := toLowerCase query in
    if startsWith packageName lowerQuery then
      let score := 2000 - len packageName in
      if len packageName - len lowerQuery <? 3 then score + 500 else score
    else
      match indexOf packageName lowerQuery with
      | Some i => 1000 - Z.of_nat i - len packageName
      | None => 0
      end.

Definition scoredItems (query : string) (items : list Item) : list (Item * Z) :=
  List.map (fun it => (it, score query it)) items.

(** [scoredItems.sort((a, b) => b.score - a.score)], then the items in their
    new order. *)
Definition rank (query : string) (items : list Item) : list Item :=
  List.map fst (Js.sort (fun a b => snd b - snd a) (scoredItems query items)).

(** [resetDependencyOrder()]. *)
Definition resetDependencyOrder (st : Store) : Store :=
  if (List.length (originalOrder st) =? 0)%nat then st
  else
    mkStore (allDependencies st) (selectedDependencies st)
      ((fun _ => originalOrder st) <$> listElement st) (originalOrder st) (selectAll st).

(** [searchDependencies(query)]; scrolling, the highlight of the match and
    the rebinding of the event handlers are left out. *)
Definition searchDependencies (query : string) (st : Store) : Store :=
  match listElement st with
  | None => st
  | Some items =>
      let saved :=
        if (List.length (originalOrder st) =? 0)%nat then items else originalOrder st in
      let st :=
        mkStore (allDependencies st) (selectedDependencies st) (Some items) saved
          (selectAll st) in
      if String.eqb query "" then resetDependencyOrder st
      else
        mkStore (allDependencies st) (selectedDependencies st)
          (Some (rank query items)) saved (selectAll st)
  end.

(** A key that contains the query. *)
Definition matches (query : string) (it : Item) : bool :=
  match indexOf (toLowerCase (data_name it)) (toLowerCase query) with
  | Some _ => true
  | None => false
  end.

(** A string of [n] copies of [c]. *)
Fixpoint repeatChar (n : nat) (c : ascii) : string :=
  match n with
  | O => EmptyString
  | S n' => String c (repeatChar n' c)
  end.

(** An unflagged item with the given key. *)
Definition item (key : string) : Item :=
  mkItem key false false false false false DisplayDefault "1.0".

End Ranking.

(** ** Refreshing the list after a mutation ([core.js], [dependency-manager.js]) *)

Module Sync.
Import ListState.

(** What [getSingleDependency(packageName, forceRefresh)] settles to. *)
Inductive SingleFetch :=
| FetchRejected
| FetchEmpty                     (* null: the package is not installed *)
| FetchEntry (e : Entry).

(** What the callbacks do to the list, in order. *)
Inductive Action :=
| GetSingleDependency (packageName : string) (forceRefresh : bool)
| UpdateDependencyItem (e : Entry)
| RefreshDependencies (useCache : bool)
| Notify (message : string).

(** [refreshSingleDependency(packageName, forceRefresh)]: every failure is
    caught and turned into [null].  [upsertThrows] says whether
    [updateDependencyItem] throws. *)
Definition refreshSingleDependency (packageName : string) (forceRefresh : bool)
    (fetched : SingleFetch) (upsertThrows : bool) : option Entry * list Action :=
  let request := GetSingleDependency packageName forceRefresh in
  match fetched with
  | FetchRejected => (None, [request])
  | FetchEmpty => (None, [request])
  | FetchEntry e =>
      if upsertThrows then (None, [request])
      else (Some e, [request; UpdateDependencyItem e])
  end.

(** The completion callback of a version switch ([setupVersionEvents]). *)
Definition switchVersionCompleted (packageName version : string)
    (fetched : SingleFetch) (upsertThrows : bool) : list Action :=
  let '(updatedDep, acts) := refreshSingleDependency packageName true fetched upsertThrows in
  match updatedDep with
  | Some _ =>
      acts ++ [Notify ("已成功将 " +:+ packageName +:+ " 切换到版本 " +:+ version)]
  | None => acts ++ [RefreshDependencies false]
  end.

(** The completion callback of an update ([setupDependencyOperationEvents]). *)
Definition updateCompleted (packageName : string)
    (fetched : SingleFetch) (upsertThrows : bool) : list Action :=
  snd (refreshSingleDependency packageName true fetched upsertThrows).

(** The completion callback that [handleTaskWithProgress] registers for an
    install ([refreshList] is true). *)
Definition installCompleted : list Action := [RefreshDependencies false].

(** What [handlePackageInstall] does as soon as the install task has been
    submitted: [refreshSingleDependency] never throws, so the [catch] that
    holds the full refresh is not reached. *)
Definition installSubmitted (packageName : string)
    (fetched : SingleFetch) (upsertThrows : bool) : list Action :=
  snd (refreshSingleDependency packageName true fetched upsertThrows).

Definition isFullReload (a : Action) : bool :=
  match a with RefreshDependencies _ => true | _ => false end.
Definition isTargetedFetch (a : Action) : bool :=
  match a with GetSingleDependency _ _ => true | _ => false end.

(** An action that replaces one item of the list. *)
Definition isUpsert (a : Action) : bool :=
  match a with UpdateDependencyItem _ => true | _ => false end.

End Sync.

(** ** More observations on the monitor *)

Module MonitorRun.
Import Monitor.
Local Open Scope Z_scope.

Definition isNotification (e : Effect) : bool :=
  match e with ShowNotification _ _ => true | _ => false end.

(** How many notifications have been shown. *)
Definition notificationCount (st : State) : nat :=
  List.length (List.filter isNotification (trace st)).

Definition isBar (e : Effect) : bool :=
  match e with UpdateProgressBar _ _ => true | _ => false end.

(** The fetches of a run: while the monitor polls, the tick that starts the
    next fetch is due half a second after the one that started the last;
    once it has completed, at most 120 fetches have been started. *)
Definition onSchedule (st : State) : Prop :=
  if taskCompleted st then (calls st <= 120)%nat
  else intervalId st = Some (500 * (Z.of_nat (calls st) + 1)).

(** While the monitor polls no notification has been shown; afterwards the
    notifications shown and the closures still pending add up to the number
    that one completion shows. *)
Definition outcomes (perCompletion : nat) (st : State) : Prop :=
  if taskCompleted st then
    (perCompletion * List.length (delayed st) + notificationCount st = perCompletion)%nat
  else notificationCount st = 0%nat.

(** [isCompleted] of the interval callback. *)
Definition isCompleted (p : Progress) (st : State) : bool :=
  match p_status p with Some s => String.eqb s "completed" | None => false end
  || (100 <=? Z.max (lastProgressPercent st) (reported p)).


(** What no callback of the polling phase touches: the clock and the
    notifications. *)
Definition framed (st st' : State) : Prop :=
  now st' = now st /\ notificationCount st' = notificationCount st.

End MonitorRun.

(** ** Selection, refresh and search on the page ([ui.js], [core.js]) *)

Module Page.
Import ListState Ranking.

(** An item that [handleSelectAll] acts on: matched by
    [.dependency-item:not(.system):not(.app-required)] and not hidden.  Such
    an item carries a checkbox, [renderDependencyList] giving one to every
    item that is neither system nor required by the application. *)
Definition selectable (it : Item) : bool :=
  negb (cls_system it) && negb (cls_app_required it)
  && match display it with DisplayNone => false | _ => true end.

(** The body of the [forEach] of [handleSelectAll] for one item. *)
Definition selectAllItem (isChecked : bool) (acc : list Item * gset string) (it : Item)
    : list Item * gset string :=
  let '(done, sel) := acc in
  if selectable it then
    let packageName := data_name it in
    if isChecked then
      (done ++ [set_selected true it],
       if negb (String.eqb packageName "") && negb (bool_decide (packageName ∈ sel))
       then {[packageName]} ∪ sel else sel)
    else
      (done ++ [set_selected false it],
       if negb (String.eqb packageName "") then sel ∖ {[packageName]} else sel)
  else (done ++ [it], sel).

(** [handleSelectAll(isChecked)]. *)
Definition handleSelectAll (isChecked : bool) (st : Store) : Store :=
  let items := default [] (listElement st) in
  let '(items', sel') :=
    List.fold_left (selectAllItem isChecked) items ([], selectedDependencies st) in
  mkStore (allDependencies st) sel' ((fun _ => items') <$> listElement st)
    (originalOrder st) (selectAll st).

(** What [handleSelectAll] leaves of one item. *)
Definition selectedAll (isChecked : bool) (it : Item) : Item :=
  if selectable it then set_selected isChecked it else it.

(** The names that [handleSelectAll] adds or removes. *)
Definition selectableNames (items : list Item) : list string :=
  List.filter (fun n => negb (String.eqb n ""))
    (List.map data_name (List.filter selectable items)).

(** [getSelectedDependencies()] and the state of the two batch buttons set by
    [updateBatchButtonState()]. *)
Definition getSelectedDependencies (st : Store) : list string :=
  elements (selectedDependencies st).
Definition batchButtonsDisabled (st : Store) : bool :=
  bool_decide (size (selectedDependencies st) = 0%nat).

(** [showLoadingMessage(message)]: the items give way to the message. *)
Definition showLoadingMessage (st : Store) : Store :=
  mkStore (allDependencies st) (selectedDependencies st)
    ((fun _ => []) <$> listElement st) (originalOrder st) (selectAll st).

(** [refreshDependencies(useCache)] of [core.js]: [loaded] is what
    [loadDependencies] resolves to, [None] when it rejects.  The array that
    is returned is the one that [renderDependencyList] has sorted in place. *)
Definition refreshDependencies (localeCompare : string -> string -> Z)
    (loaded : option (list Entry)) (st : Store) : Store * list Entry :=
  let st := showLoadingMessage st in
  match loaded with
  | Some dependencies =>
      let st' := renderDependencyList localeCompare dependencies st in
      (st', allDependencies st')
  | None => (st, [])
  end.

(** The completion callback of a batch uninstall: [clearSelection()], then
    [refreshDependencies()]. *)
Definition batchUninstallCompleted (localeCompare : string -> string -> Z)
    (loaded : option (list Entry)) (st : Store) : Store :=
  fst (refreshDependencies localeCompare loaded (clearSelection st)).

(** The completion callback of an update of the selected packages. *)
Definition updateSelectedCompleted (localeCompare : string -> string -> Z)
    (loaded : option (list Entry)) (st : Store) : Store :=
  fst (refreshDependencies localeCompare loaded st).

End Page.

(** ** Version strings ([api.js], [normalizeVersion] and [compareVersions]) *)

Module Versions.
Local Open Scope Z_scope.

(** [s.split(sep)[0]] when [s.includes(sep)], and [s] otherwise. *)
Definition cutAt (sep s : string) : string :=
  match String.index 0 sep s with
  | Some i => String.substring 0 i s
  | None => s
  end.

Definition prefixes : list string := ["a"; "b"; "rc"; "dev"; "alpha"; "beta"; "pre"].

(** The separators in the order in which [normalizeVersion] looks for them:
    [.post], then for every prefix the dotted and the dashed form. *)
Definition markers : list string :=
  ".post" :: List.concat (List.map (fun p => ["." +:+ p; "-" +:+ p]) prefixes).

(** [normalizeVersion(version)]; the empty string is falsy and yields the
    empty string. *)
Definition normalizeVersion (version : string) : string :=
  if String.eqb version "" then ""
  else List.fold_left (fun normalized sep => cutAt sep normalized) markers version.

(** The number that [Number(p)] gives for a part that is not [NaN]: a part
    holds neither [.] nor [-], so it is an integer, or [Infinity] for a part
    such as [1e999]. *)
Inductive Num :=
| Finite (n : Z)
| Infinity.

(** [a !== b] and [a > b] on such numbers. *)
Definition numEq (a b : Num) : bool :=
  match a, b with
  | Finite x, Finite y => x =? y
  | Infinity, Infinity => true
  | _, _ => false
  end.

Definition numGt (a b : Num) : bool :=
  match a, b with
  | Finite x, Finite y => y <? x
  | Infinity, Finite _ => true
  | _, Infinity => false
  end.

(** One element of [v.split(/[.-]/).map(p => isNaN(p) ? p : Number(p))]. *)
Inductive Part :=
| PNumber (n : Num)
| PString (s : string).

Definition isSeparator (c : ascii) : bool :=
  Ascii.eqb c "."%char || Ascii.eqb c "-"%char.

(** [v.split(/[.-]/)]. *)
Fixpoint split (v : string) : list string :=
  match v with
  | EmptyString => [EmptyString]
  | String c v' =>
      if isSeparator c then EmptyString :: split v'
      else
        match split v' with
        | p :: ps => String c p :: ps
        | [] => [String c EmptyString]
        end
  end.

(** One element of [versions] in [getVersionHistory]. *)
Record Release := mkRelease {
  version : string;
  date : string;
  url : string }.

Section Compare.
(** [Number(p)] for a part that is not [NaN], [None] for one that is. *)
Variable toNumber : string -> option Num.

Definition normalize (v : string) : list Part :=
  List.map (fun p => match toNumber p with Some n => PNumber n | None => PString p end)
    (split v).

(** [parts[i] === undefined ? 0 : parts[i]]. *)
Definition partAt (parts : list Part) (i : nat) : Part :=
  nth i parts (PNumber (Finite 0)).

(** One round of the loop: [Some] result when the loop returns.  Strings
    are compared by their code units. *)
Definition comparePart (part1 part2 : Part) : option Z :=
  match part1, part2 with
  | PNumber _, PString _ => Some (-1)
  | PString _, PNumber _ => Some 1
  | PNumber a, PNumber b =>
      if negb (numEq a b) then Some (if numGt a b then 1 else -1) else None
  | PString a, PString b =>
      match String.compare a b with
      | Eq => None
      | Gt => Some 1
      | Lt => Some (-1)
      end
  end.

(** The loop from index [i] with [n] rounds left. *)
Fixpoint compareFrom (n i : nat) (parts1 parts2 : list Part) : Z :=
  match n with
  | O => 0
  | S n' =>
      match comparePart (partAt parts1 i) (partAt parts2 i) with
      | Some r => r
      | None => compareFrom n' (S i) parts1 parts2
      end
  end.

Definition compareParts (parts1 parts2 : list Part) : Z :=
  compareFrom (Nat.max (List.length parts1) (List.length parts2)) 0 parts1 parts2.

Definition compareVersions (v1 v2 : string) : Z :=
  compareParts (normalize v1) (normalize v2).

(** The [versions] that [getVersionHistory] returns for the releases read
    from the response: [versions.sort((a, b) => -compareVersions(a.version,
    b.version))].  The keys of [data.releases] are strings, for which
    [compareVersions] does not throw. *)
Definition getVersionHistory (versions : list Release) : list Release :=
  Js.sort (fun a b => - compareVersions (version a) (version b)) versions.
End Compare.

(** Decimal digits only: a sample [toNumber]. *)
Fixpoint digits (acc : Z) (s : string) : option Z :=
  match s with
  | EmptyString => Some acc
  | String c s' =>
      let n := Z.of_nat (nat_of_ascii c) in
      if (48 <=? n) && (n <=? 57) then digits (10 * acc + (n - 48)) s' else None
  end.
Definition decimal (s : string) : option Num := Finite <$> digits 0 s.

(** [s.includes(sep)] is false. *)
Definition absent (sep s : string) : Prop := String.index 0 sep s = None.

End Versions.

(** ** Submitting a task ([dependency-manager.js], [handleTaskWithProgress]) *)

Module Tasks.
Import ListState Sync.

(** What the awaited API call settles to. *)
Inductive ApiCall :=
| ApiRejected (message : string) (errorData : option string)
| ApiResolved (success : bool) (taskId : option string) (message : option string).

Inductive Kind := KSuccess | KError.

Inductive TaskAction :=
| ShowProgressBar (title : string)
| HideProgressBar
| ShowNotification (message : string) (kind : Kind)
| MonitorTaskProgress (taskId : string) (refreshOnComplete : bool)
| RefreshList
| ListAction (a : Action).

(** [handleTaskWithProgress(title, apiCall, refreshList)]: the value it
    resolves to and what it does. *)
Definition handleTaskWithProgress (title : string) (apiCall : ApiCall)
    (refreshList : bool) : bool * list TaskAction :=
  match apiCall with
  | ApiResolved true taskId message =>
      if Js.truthy taskId then
        (true, [ShowProgressBar title; MonitorTaskProgress (default "" taskId) refreshList])
      else
        (true,
         [ShowProgressBar title; HideProgressBar;
          ShowNotification (Js.orElse message "操作成功") KSuccess]
           ++ (if refreshList then [RefreshList] else []))
  | ApiResolved false _ message =>
      (false,
       [ShowProgressBar title; HideProgressBar;
        ShowNotification (Js.orElse message "操作失败") KError])
  | ApiRejected message errorData =>
      let errorMessage :=
        match errorData with
        | Some (String _ _ as m) => m
        | _ => message
        end in
      (false,
       [ShowProgressBar title; HideProgressBar;
        ShowNotification ("操作失败: " +:+ errorMessage) KError])
  end.



Definition isMonitor (a : TaskAction) : bool :=
  match a with MonitorTaskProgress _ _ => true | _ => false end.
Definition isHide (a : TaskAction) : bool :=
  match a with HideProgressBar => true | _ => false end.
Definition isErrorNotice (a : TaskAction) : bool :=
  match a with ShowNotification _ KError => true | _ => false end.
Definition isRefresh (a : TaskAction) : bool :=
  match a with RefreshList => true | _ => false end.


End Tasks.

(** * Properties of the monitor *)

Module MonitorFacts.
Import Monitor.
Local Open Scope Z_scope.

Lemma onCompleteCount_emit e st :
  onCompleteCount (emit e st)
  = (onCompleteCount st + if isOnComplete e then 1 else 0)%nat.
Proof.
  unfold onCompleteCount, emit; simpl.
  rewrite List.filter_app, List.length_app; simpl.
  destruct (isOnComplete e); reflexivity.
Qed.

Lemma cleanupAndComplete_fired message isError progressData st :
  taskCompleted st = false ->
  fired st (cleanupAndComplete message isError progressData st).
Proof.
  intros H. unfold cleanupAndComplete. rewrite H.
  unfold fired, setTimeout, updateProgressBar, clearTimeout, clearInterval.
  simpl. do 3 (split; [reflexivity |]). split.
  - eexists. reflexivity.
  - unfold onCompleteCount. simpl.
    rewrite List.filter_app, List.length_app. simpl. lia.
Qed.

Lemma cleanupAndComplete_guard message isError progressData st :
  taskCompleted st = true ->
  cleanupAndComplete message isError progressData st = st.
Proof. intros H. unfold cleanupAndComplete. now rewrite H. Qed.

Lemma quiet_refl st : quiet st st.
Proof. repeat split. Qed.

Lemma quiet_fired st1 st2 st3 :
  now st2 = now st1 -> quiet st1 st2 -> fired st2 st3 -> fired st1 st3.
Proof.
  intros Hn (Ht & Hs & Hi & Hd & Hc) (Ft & Fs & Fi & [c Fd] & Fc).
  repeat split; auto; try congruence.
  exists c. rewrite Fd, Hd, Hn. reflexivity.
Qed.

Lemma quiet_trans st1 st2 st3 : quiet st1 st2 -> quiet st2 st3 -> quiet st1 st3.
Proof.
  intros (Ht & Hs & Hi & Hd & Hc) (Ft & Fs & Fi & Fd & Fc).
  repeat split; congruence.
Qed.

Lemma quiet_bar percent message st : quiet st (updateProgressBar percent message st).
Proof.
  unfold updateProgressBar. repeat split.
  rewrite onCompleteCount_emit. simpl. lia.
Qed.

(** A progress report either leaves the timers alone or completes the
    monitor. *)
Lemma handleProgress_cases p st :
  taskCompleted st = false ->
  quiet st (handleProgress p st) \/ fired st (handleProgress p st).
Proof.
  intros H. unfold handleProgress.
  set (reported := default 0 (p_progress p)).
  destruct (reported <? lastProgressPercent st);
    cbv zeta beta iota;
    repeat match goal with
           | |- context [if ?b then _ else _] => destruct b
           end;
    first
      [ left; repeat split; simpl;
        rewrite ?onCompleteCount_emit; simpl;
        unfold onCompleteCount; simpl;
        rewrite ?List.filter_app, ?List.length_app; simpl; lia
      | right;
        match goal with
        | |- fired ?s (cleanupAndComplete ?m ?e ?d ?s') =>
            apply (quiet_fired s s'); [reflexivity | | apply cleanupAndComplete_fired; exact H]
        end;
        repeat split; simpl;
        unfold onCompleteCount; simpl;
        rewrite ?List.filter_app, ?List.length_app; simpl; lia ].
Qed.

Lemma intervalCallback_cases getProgressFunc st :
  taskCompleted st = false ->
  quiet st (intervalCallback getProgressFunc st)
  \/ fired st (intervalCallback getProgressFunc st).
Proof.
  intros H. unfold intervalCallback, answered. rewrite H.
  destruct (getProgressFunc (calls st)) as [m | v]; cbv zeta.
  - destruct (3 <=? _).
    + right. eapply quiet_fired; [| | apply cleanupAndComplete_fired]; try reflexivity.
      * repeat split.
      * exact H.
    + left. repeat split.
  - assert (Hfalsy :
      let st0 := set_consecutiveErrorCount 0 (set_calls (S (calls st)) st) in
      let st1 := set_consecutiveErrorCount (consecutiveErrorCount st0 + 1) st0 in
      quiet st (if 3 <=? consecutiveErrorCount st1
                then cleanupAndComplete "无法获取进度信息，任务可能已完成" true None st1
                else st1)
      \/ fired st (if 3 <=? consecutiveErrorCount st1
                   then cleanupAndComplete "无法获取进度信息，任务可能已完成" true None st1
                   else st1)).
    { cbv zeta. destruct (3 <=? _).
      - right. eapply quiet_fired; [| | apply cleanupAndComplete_fired]; try reflexivity.
        + repeat split.
        + exact H.
      - left. repeat split. }
    destruct v as [ | | | p]; try exact Hfalsy.
    destruct (Js.truthy (p_error p)).
    + right. eapply quiet_fired; [| | apply cleanupAndComplete_fired]; try reflexivity.
      * repeat split.
      * exact H.
    + set (st0 := set_consecutiveErrorCount 0 (set_calls (S (calls st)) st)).
      destruct (handleProgress_cases p st0 H) as [Q | F].
      * left. eapply quiet_trans; [| exact Q]. repeat split.
      * right. eapply quiet_fired; [| | exact F]; try reflexivity. repeat split.
Qed.

Local Arguments onCompleteCount : simpl never.
Local Arguments delayedCallback : simpl never.
Local Arguments intervalCallback : simpl never.
Local Arguments safetyCallback : simpl never.
Local Arguments cleanupAndComplete : simpl never.

Lemma delayedCallback_count throws c st :
  let st' := delayedCallback (Fn throws) c st in
  onCompleteCount st' = S (onCompleteCount st)
  /\ taskCompleted st' = taskCompleted st /\ safetyTimeout st' = safetyTimeout st
  /\ intervalId st' = intervalId st /\ delayed st' = delayed st.
Proof.
  unfold delayedCallback.
  destruct (c_isError c);
    [| destruct (c_progressData c) as [[? ? ? ? [[|? ?]|]]|];
       [| destruct (List.filter _ _) | |] ];
    destruct throws; simpl;
    unfold onCompleteCount; simpl;
    rewrite ?List.filter_app, ?List.length_app; simpl;
    repeat split; lia.
Qed.

Lemma invariant_init :
  invariant monitorTaskProgress
  /\ remaining monitorTaskProgress = 500 * 123.
Proof.
  unfold invariant, remaining. simpl. repeat split.
  exists 500. split; [reflexivity | lia].
Qed.

(** *** Answers that arrive late

    On a monitor that has completed, the guard of [cleanupAndComplete] is all
    that keeps an answer from completing it once more. *)
Lemma handleProgress_completed p st :
  taskCompleted st = true -> quiet st (handleProgress p st).
Proof.
  intros H. unfold handleProgress.
  destruct (default 0 (p_progress p) <? lastProgressPercent st);
    cbv zeta beta iota;
    repeat match goal with
           | |- context [if ?b then _ else _] => destruct b
           end;
    rewrite ?cleanupAndComplete_guard by exact H;
    repeat split; unfold onCompleteCount; simpl;
    rewrite ?List.filter_app, ?List.length_app; simpl; lia.
Qed.

Lemma answered_completed settled st :
  taskCompleted st = true -> quiet st (answered settled st).
Proof.
  intros H. unfold answered. destruct settled as [m | [ | | | p]]; cbv zeta;
    try (destruct (3 <=? _); [rewrite cleanupAndComplete_guard by exact H |];
         repeat split).
  destruct (Js.truthy (p_error p)).
  - rewrite cleanupAndComplete_guard by exact H. repeat split.
  - eapply quiet_trans; [| apply handleProgress_completed; exact H]. repeat split.
Qed.

Lemma answered_running settled st :
  taskCompleted st = false ->
  quiet st (answered settled st) \/ fired st (answered settled st).
Proof.
  intros H. unfold answered.
  assert (Hcount : forall message (st1 : State),
             taskCompleted st1 = false -> now st1 = now st -> quiet st st1 ->
             quiet st (if 3 <=? consecutiveErrorCount st1
                       then cleanupAndComplete message true None st1 else st1)
             \/ fired st (if 3 <=? consecutiveErrorCount st1
                          then cleanupAndComplete message true None st1 else st1)).
  { intros message st1 H1 Hn Hq. destruct (3 <=? _); [right | left; exact Hq].
    eapply quiet_fired; [exact Hn | exact Hq | now apply cleanupAndComplete_fired]. }
  destruct settled as [m | [ | | | p]]; cbv zeta;
    try (apply Hcount; [exact H | reflexivity | repeat split]).
  destruct (Js.truthy (p_error p)).
  - right. eapply quiet_fired; [| | apply cleanupAndComplete_fired]; try reflexivity.
    + repeat split.
    + exact H.
  - destruct (handleProgress_cases p (set_consecutiveErrorCount 0 st) H) as [Q | F].
    + left. eapply quiet_trans; [| exact Q]. repeat split.
    + right. eapply quiet_fired; [| | exact F]; try reflexivity. repeat split.
Qed.

(** *** The events of a run *)

Lemma runEvents_snoc getProgressFunc onComplete events e :
  runEvents getProgressFunc onComplete (events ++ [e])
  = step getProgressFunc onComplete (runEvents getProgressFunc onComplete events) e.
Proof. unfold runEvents. now rewrite List.fold_left_app. Qed.

Lemma timerEvents_snoc events e :
  timerEvents (events ++ [e])
  = (timerEvents events + if isTimer e then 1 else 0)%nat.
Proof.
  unfold timerEvents. rewrite List.filter_app, List.length_app. simpl.
  destruct (isTimer e); reflexivity.
Qed.

(** What one event does to a monitor that satisfies the timer invariant:
    nothing, or it runs the delayed closure, the safety callback, the first
    part of the interval callback, or the second part for some fetch. *)
Lemma step_shape getProgressFunc onComplete b e :
  invariant (monitor b) ->
  (monitor (step getProgressFunc onComplete b e) = monitor b
   /\ (isTimer e = true -> idle (monitor b) = true))
  \/ (isTimer e = true /\ taskCompleted (monitor b) = true
      /\ exists t c, delayed (monitor b) = [(t, c)]
           /\ monitor (step getProgressFunc onComplete b e)
              = delayedCallback onComplete c (set_delayed [] (set_now t (monitor b))))
  \/ (isTimer e = true /\ taskCompleted (monitor b) = false
      /\ monitor (step getProgressFunc onComplete b e)
         = safetyCallback (set_safetyTimeout None (set_now 60000 (monitor b))))
  \/ (isTimer e = true /\ taskCompleted (monitor b) = false
      /\ exists t, intervalId (monitor b) = Some t /\ t <= 60000
           /\ monitor (step getProgressFunc onComplete b e)
              = set_calls (S (calls (monitor b)))
                  (set_intervalId (Some (t + 500)) (set_now t (monitor b))))
  \/ (isTimer e = false
      /\ exists k, monitor (step getProgressFunc onComplete b e)
                   = answered (getProgressFunc k) (monitor b)).
Proof.
  destruct b as [st infl]. simpl monitor. destruct e as [intervalFirst | k].
  - unfold invariant, step, timerFires, pending. simpl monitor. simpl inFlight.
    destruct (taskCompleted st) eqn:Hc.
    + intros (Hs & Hi & Hlen). rewrite Hs, Hi.
      destruct (delayed st) as [| [t c] rest] eqn:Hd; simpl.
      * left. destruct intervalFirst; simpl; (split; [reflexivity |]); intros _;
          unfold idle; now rewrite Hs, Hi, Hd.
      * assert (rest = []) by (destruct rest; simpl in Hlen; [reflexivity | lia]).
        subst rest. right. left. split; [reflexivity |]. split; [reflexivity |].
        exists t, c. split; [reflexivity |]. destruct intervalFirst; reflexivity.
    + intros (Hs & (t & Hi & Hle) & Hd & Hn). rewrite Hs, Hi, Hd. simpl.
      right. right.
      assert (Hinterval :
                intervalFired (set_intervalId (Some (t + 500)) (set_now t st))
                = set_calls (S (calls st))
                    (set_intervalId (Some (t + 500)) (set_now t st))).
      { unfold intervalFired. simpl. now rewrite Hc. }
      destruct intervalFirst; simpl.
      * destruct (Z.leb_spec t 60000); simpl.
        -- right. left. split; [reflexivity |]. split; [reflexivity |]. exists t.
           split; [reflexivity |]. split; [lia | exact Hinterval].
        -- left. split; [reflexivity |]. split; reflexivity.
      * destruct (Z.leb_spec 60000 t); simpl.
        -- left. split; [reflexivity |]. split; reflexivity.
        -- right. left. split; [reflexivity |]. split; [reflexivity |]. exists t.
           split; [reflexivity |]. split; [lia | exact Hinterval].
  - intros _. unfold step, fetchSettles. simpl.
    destruct (existsb (Nat.eqb k) infl); simpl.
    + do 4 right. split; [reflexivity |]. now exists k.
    + left. split; [reflexivity | discriminate].
Qed.

Lemma idle_running st : invariant st -> idle st = true -> taskCompleted st = true.
Proof.
  unfold invariant, idle. destruct (taskCompleted st); [reflexivity |].
  intros (-> & _). discriminate.
Qed.

(** Every event keeps the timer invariant; a timer uses up at least half a
    second of what remains, an answer uses up nothing or ends the polling,
    and a monitor without timers stays without. *)
Lemma step_invariant getProgressFunc throws b e :
  invariant (monitor b) ->
  invariant (monitor (step getProgressFunc (Fn throws) b e))
  /\ (idle (monitor b) = true
      -> idle (monitor (step getProgressFunc (Fn throws) b e)) = true)
  /\ (idle (monitor b) = true
      \/ remaining (monitor (step getProgressFunc (Fn throws) b e))
         <= remaining (monitor b) - (if isTimer e then 500 else 0)).
Proof.
  intros Hinv.
  destruct (step_shape getProgressFunc (Fn throws) b e Hinv)
    as [[-> Hidle] | [(He & Hc & t & c & Hd & ->) | [(He & Hc & ->)
       | [(He & Hc & t & Hi & Ht & ->) | (He & k & ->)]]]].
  - split; [exact Hinv |]. split; [auto |].
    destruct (isTimer e); [left; now apply Hidle | right; lia].
  - unfold invariant in Hinv. rewrite Hc in Hinv. destruct Hinv as (Hs & Hi & Hlen).
    destruct (delayedCallback_count throws c (set_delayed [] (set_now t (monitor b))))
      as (Hn & Htc & Hs' & Hi' & Hd').
    assert (Hz : onCompleteCount (monitor b) = 0%nat)
      by (rewrite Hd in Hlen; simpl in Hlen; lia).
    change (onCompleteCount (set_delayed [] (set_now t (monitor b))))
      with (onCompleteCount (monitor b)) in Hn.
    unfold invariant, idle, remaining. rewrite Htc, Hs', Hi', Hd', Hn, He. simpl.
    rewrite Hc, Hs, Hi, Hd, Hz. simpl. repeat split. right. lia.
  - unfold invariant in Hinv. rewrite Hc in Hinv.
    destruct Hinv as (Hs & (t & Hi & Hle) & Hd & Hn).
    unfold safetyCallback. simpl taskCompleted. rewrite Hc. simpl negb. cbv iota.
    destruct (cleanupAndComplete_fired defaultMessage false None
                (set_safetyTimeout None (set_now 60000 (monitor b))) Hc)
      as (Ft & Fs & Fi & [c Fd] & Fc).
    change (onCompleteCount (set_safetyTimeout None (set_now 60000 (monitor b))))
      with (onCompleteCount (monitor b)) in Fc.
    unfold invariant, idle, remaining. rewrite Ft, Fs, Fi, Fd, Fc, He. simpl.
    rewrite Hc, Hs, Hi, Hd, Hn. simpl. repeat split; try discriminate. right. lia.
  - unfold invariant in Hinv. rewrite Hc in Hinv.
    destruct Hinv as (Hs & _ & Hd & Hn).
    unfold invariant, idle, remaining. simpl. rewrite Hc, Hs, Hi, Hd, He. simpl.
    change (onCompleteCount (set_calls _ _)) with (onCompleteCount (monitor b)).
    repeat split; try discriminate; try assumption.
    + exists (t + 500). split; [reflexivity | lia].
    + right. lia.
  - rewrite He. destruct (taskCompleted (monitor b)) eqn:Hc.
    + destruct (answered_completed (getProgressFunc k) (monitor b) Hc)
        as (Qt & Qs & Qi & Qd & Qc).
      unfold invariant, idle, remaining in *. rewrite Qt, Qs, Qi, Qd, Qc.
      split; [exact Hinv |]. split; [auto | right; lia].
    + destruct (answered_running (getProgressFunc k) (monitor b) Hc)
        as [(Qt & Qs & Qi & Qd & Qc) | (Ft & Fs & Fi & [c Fd] & Fc)].
      * unfold invariant, idle, remaining in *. rewrite Qt, Qs, Qi, Qd, Qc.
        split; [exact Hinv |]. split; [auto | right; lia].
      * unfold invariant in Hinv. rewrite Hc in Hinv.
        destruct Hinv as (Hs & (t & Hi & Hle) & Hd & Hn).
        unfold invariant, idle, remaining. rewrite Ft, Fs, Fi, Fd, Fc. simpl.
        rewrite Hc, Hs, Hi, Hd, Hn. simpl. repeat split; try discriminate. right. lia.
Qed.

Lemma remaining_positive st :
  invariant st -> idle st = false -> 500 <= remaining st.
Proof.
  unfold invariant, idle, remaining. destruct (taskCompleted st).
  - intros (-> & -> & _). destruct (delayed st); [discriminate |].
    intros _. simpl List.length. lia.
  - intros (_ & (t & -> & Ht) & _) _. simpl. lia.
Qed.

(** The timer invariant holds after every run, and every timer event
    brings the end of the run half a second nearer. *)
Lemma runEvents_invariant getProgressFunc throws events :
  invariant (monitor (runEvents getProgressFunc (Fn throws) events))
  /\ (idle (monitor (runEvents getProgressFunc (Fn throws) events)) = true
      \/ remaining (monitor (runEvents getProgressFunc (Fn throws) events))
         <= 500 * (123 - Z.of_nat (timerEvents events))).
Proof.
  induction events as [| e events IH] using rev_ind.
  - destruct invariant_init as [Hinit Hrem]. split; [exact Hinit |].
    right. change (runEvents getProgressFunc (Fn throws) []) with
      (mkBrowser monitorTaskProgress []). simpl monitor. rewrite Hrem.
    unfold timerEvents. simpl. lia.
  - destruct IH as [Hinv Hrem]. rewrite runEvents_snoc, timerEvents_snoc.
    destruct (step_invariant getProgressFunc throws
                (runEvents getProgressFunc (Fn throws) events) e Hinv)
      as (Hinv' & Hidle & Hstep).
    split; [exact Hinv' |].
    destruct Hrem as [Hi | Hle]; [left; now apply Hidle |].
    destruct Hstep as [Hi | Hle']; [left; now apply Hidle |].
    right. destruct (isTimer e); lia.
Qed.

(** [eventLoop] is the run in which every fetch settles at once. *)
Lemma eventLoop_prompt getProgressFunc onComplete intervalFirst fuel : forall st,
  List.fold_left (step getProgressFunc onComplete)
    (promptEvents getProgressFunc onComplete intervalFirst fuel st) (mkBrowser st [])
  = mkBrowser (eventLoop getProgressFunc onComplete intervalFirst fuel st) [].
Proof.
  induction fuel as [| fuel IH]; intros st; simpl; [reflexivity |].
  destruct (runTimer getProgressFunc onComplete intervalFirst st) as [st' |] eqn:E;
    [| reflexivity].
  simpl. rewrite <- IH. f_equal.
  unfold runTimer in E. unfold timerFires, fetchSettles. simpl monitor.
  destruct (pending intervalFirst st) as [[t []] |]; try discriminate.
  - injection E as <-. reflexivity.
  - injection E as <-. unfold intervalFired, intervalCallback. simpl.
    destruct (taskCompleted st); simpl; [reflexivity |].
    now rewrite Nat.eqb_refl.
  - destruct (delayed st) as [| [t' c] rest]; [discriminate |].
    injection E as <-. reflexivity.
Qed.

(** C1.  For a monitor whose [onComplete] is a function, whatever the
    fetcher answers and whenever its answers arrive between and after the
    timers: at every moment [onComplete] has been called at most once; a
    monitor that has completed has neither its polling interval nor its
    safety timer pending, and one that has not completed has not called
    back; and once no timer is left, which is so after 123 timer events at
    the latest, [onComplete] has been called exactly once. *)
Theorem onComplete_exactly_once
    (getProgressFunc : nat -> Settled) (throws : bool) (events : list Event) :
  let st := monitor (runEvents getProgressFunc (Fn throws) events) in
  (onCompleteCount st <= 1)%nat
  /\ (if taskCompleted st
      then intervalId st = None /\ safetyTimeout st = None
      else onCompleteCount st = 0%nat)
  /\ (if idle st
      then taskCompleted st = true /\ onCompleteCount st = 1%nat
      else (timerEvents events < 123)%nat).
Proof.
  cbv zeta.
  destruct (runEvents_invariant getProgressFunc throws events) as [Hinv Hrem].
  set (st := monitor (runEvents getProgressFunc (Fn throws) events)) in *.
  split; [| split].
  - unfold invariant in Hinv. destruct (taskCompleted st); lia.
  - unfold invariant in Hinv. destruct (taskCompleted st); tauto.
  - destruct (idle st) eqn:Hidle.
    + pose proof (idle_running st Hinv Hidle) as Hc. split; [exact Hc |].
      unfold invariant in Hinv. rewrite Hc in Hinv. destruct Hinv as (_ & _ & Hlen).
      unfold idle in Hidle.
      destruct (safetyTimeout st), (intervalId st), (delayed st); try discriminate.
      simpl in Hlen. lia.
    + destruct Hrem as [Hi | Hle]; [congruence |].
      pose proof (remaining_positive st Hinv Hidle). lia.
Qed.

(** *** Displayed progress *)

Lemma max_as_code (last r : Z) :
  (if r <? last then last else r) = Z.max last r.
Proof. destruct (Z.ltb_spec r last); lia. Qed.

(** A progress report first shows [max(last, reported)] and records it. *)
Lemma handleProgress_bar p st :
  let shown := Z.max (lastProgressPercent st) (reported p) in
  (exists rest,
      trace (handleProgress p st)
      = trace st ++ UpdateProgressBar shown (p_message p) :: rest)
  /\ lastProgressPercent (handleProgress p st) = shown.
Proof.
  cbv zeta. rewrite <- max_as_code.
  unfold handleProgress, reported, cleanupAndComplete.
  destruct (default 0 (p_progress p) <? lastProgressPercent st);
    cbv zeta beta iota;
    repeat match goal with
           | |- context [if ?b then _ else _] => destruct b
           end;
    simpl; rewrite <- ?List.app_assoc; simpl; split; eauto.
Qed.

Lemma cleanupAndComplete_last message isError progressData st :
  lastProgressPercent (cleanupAndComplete message isError progressData st)
  = lastProgressPercent st.
Proof. unfold cleanupAndComplete. destruct (taskCompleted st); reflexivity. Qed.

Lemma intervalCallback_processed getProgressFunc st p :
  processed getProgressFunc st = Some p ->
  intervalCallback getProgressFunc st
  = handleProgress p (set_consecutiveErrorCount 0 (set_calls (S (calls st)) st)).
Proof.
  unfold processed, intervalCallback, answered.
  destruct (taskCompleted st); [discriminate |].
  destruct (getProgressFunc (calls st)) as [m | [ | | | q]]; try discriminate.
  destruct (Js.truthy (p_error q)); [discriminate |].
  now intros [= ->].
Qed.

Lemma intervalCallback_unprocessed getProgressFunc st :
  processed getProgressFunc st = None ->
  lastProgressPercent (intervalCallback getProgressFunc st) = lastProgressPercent st.
Proof.
  unfold processed, intervalCallback, answered.
  destruct (taskCompleted st); [reflexivity |].
  destruct (getProgressFunc (calls st)) as [m | [ | | | q]]; cbv zeta;
    try (destruct (3 <=? _); rewrite ?cleanupAndComplete_last; reflexivity).
  destruct (Js.truthy (p_error q)); [| discriminate].
  intros _. now rewrite cleanupAndComplete_last.
Qed.

Lemma displayed_processed getProgressFunc st p :
  processed getProgressFunc st = Some p ->
  displayed getProgressFunc st = Some (Z.max (lastProgressPercent st) (reported p))
  /\ lastProgressPercent (intervalCallback getProgressFunc st)
     = Z.max (lastProgressPercent st) (reported p).
Proof.
  intros Hp. unfold displayed. rewrite Hp.
  rewrite (intervalCallback_processed _ _ _ Hp).
  destruct (handleProgress_bar p
              (set_consecutiveErrorCount 0 (set_calls (S (calls st)) st)))
    as [[rest Htr] Hlast].
  simpl in Htr, Hlast. rewrite Htr, Hlast. split; [| reflexivity].
  now rewrite drop_app_length.
Qed.

Lemma displayedValues_runningMax getProgressFunc n st :
  displayedValues getProgressFunc n st
  = runningMax (lastProgressPercent st) (reportedValues getProgressFunc n st).
Proof.
  revert st. induction n as [| n IH]; intros st; simpl; [reflexivity |].
  rewrite IH.
  destruct (processed getProgressFunc st) as [p |] eqn:Hp.
  - destruct (displayed_processed _ _ _ Hp) as [-> ->]. reflexivity.
  - unfold displayed. rewrite Hp. simpl.
    now rewrite (intervalCallback_unprocessed _ _ Hp).
Qed.

Lemma runningMax_sorted last reports :
  Forall (Z.le last) (runningMax last reports)
  /\ StronglySorted Z.le (runningMax last reports).
Proof.
  revert last. induction reports as [| r reports IH]; intros last; simpl.
  - split; constructor.
  - destruct (IH (Z.max last r)) as [Hall Hsorted]. split.
    + constructor; [lia |].
      eapply Forall_impl; [exact Hall |]. simpl. intros; lia.
    + constructor; assumption.
Qed.

Lemma cleanupAndComplete_completed message isError progressData st :
  taskCompleted (cleanupAndComplete message isError progressData st) = true.
Proof. unfold cleanupAndComplete. destruct (taskCompleted st) eqn:E; [exact E | reflexivity]. Qed.

(** What the answer with a progress report displays first, in any state
    of the monitor. *)
Lemma answered_bar p st :
  Js.truthy (p_error p) = false ->
  exists rest,
    trace (answered (Resolved (JsObject p)) st)
    = trace st
        ++ UpdateProgressBar (Z.max (lastProgressPercent st) (reported p)) (p_message p)
        :: rest.
Proof.
  intros H. unfold answered. rewrite H.
  destruct (handleProgress_bar p (set_consecutiveErrorCount 0 st)) as [[rest Hr] _].
  exists rest. exact Hr.
Qed.

(** C2.  An answer that carries a progress report is displayed as the
    maximum of [lastProgressPercent] and the reported percentage, and as long
    as every fetch is answered before the next timer fires, the displayed
    sequence is the running maximum of the reports: 10, 30, 20, 100 are
    displayed as 10, 30, 30, 100.  But an answer is processed after the
    [await] without [taskCompleted] being looked at again.  When the first
    fetch is answered only after the second tick has started the second
    fetch, with 60 per cent and the status completed, the bar shows 60 and
    then the final 100; the answer to the second fetch, 60 per cent again,
    then puts the bar back from 100 to 60. *)
Theorem late_answer_moves_the_bar_back :
  let completed60 :=
    Resolved (JsObject (mkProgress None (Some 60) (Some "completed") None None)) in
  let running60 :=
    Resolved (JsObject (mkProgress None (Some 60) (Some "running") None None)) in
  let getProgressFunc := fun k : nat =>
    match k with O => completed60 | S _ => running60 end in
  let before :=
    monitor (runEvents getProgressFunc (Fn false)
               [TimerFires true; TimerFires true; FetchSettles 0]) in
  let after :=
    monitor (runEvents getProgressFunc (Fn false)
               [TimerFires true; TimerFires true; FetchSettles 0; FetchSettles 1]) in
  (forall p st, Js.truthy (p_error p) = false ->
     firstBar (drop (List.length (trace st))
                 (trace (answered (Resolved (JsObject p)) st)))
     = Some (Z.max (lastProgressPercent st) (reported p)))
  /\ (forall f n,
        displayedValues f n monitorTaskProgress
        = runningMax 0 (reportedValues f n monitorTaskProgress))
  /\ displayedValues (reporting [10; 30; 20; 100]) 4 monitorTaskProgress
     = [10; 30; 30; 100]
  /\ (calls before, taskCompleted before, lastProgressPercent before, bars before)
     = (2%nat, true, 60, [60; 100])
  /\ (taskCompleted after, bars after) = (true, [60; 100; 60]).
Proof.
  cbv zeta. split; [| split; [| split; [| split]]].
  - intros p st H. destruct (answered_bar p st H) as [rest ->].
    now rewrite drop_app_length.
  - intros f n. apply (displayedValues_runningMax f n monitorTaskProgress).
  - vm_compute. reflexivity.
  - vm_compute. reflexivity.
  - vm_compute. reflexivity.
Qed.

(** *** Stagnation *)

(** The stagnation test compares the displayed percentage with
    [lastProgressPercent] after the latter has been brought up to it, so
    every processed tick counts as stagnant. *)
Lemma stagnantCount_always_incremented getProgressFunc st p :
  processed getProgressFunc st = Some p ->
  stagnantCount (intervalCallback getProgressFunc st) = stagnantCount st + 1.
Proof.
  intros Hp. rewrite (intervalCallback_processed _ _ _ Hp).
  unfold handleProgress, cleanupAndComplete.
  destruct (default 0 (p_progress p) <? _); cbv zeta beta iota;
    simpl lastProgressPercent; rewrite Z.eqb_refl;
    repeat match goal with
           | |- context [if ?b then _ else _] => destruct b
           end;
    reflexivity.
Qed.

(** C3.  The reports 10 and then 30 change the displayed percentage from 10
    to 30, and still the second tick raises [stagnantCount] from 1 to 2
    instead of putting it back to 0. *)
Theorem stagnantCount_grows_when_progress_changes :
  let getProgressFunc := reporting [10; 30] in
  displayedValues getProgressFunc 2 monitorTaskProgress = [10; 30]
  /\ stagnantCount (ticks getProgressFunc 1 monitorTaskProgress) = 1
  /\ stagnantCount (ticks getProgressFunc 2 monitorTaskProgress) = 2.
Proof. vm_compute. repeat split; reflexivity. Qed.

(** *** Consecutive fetch failures *)

(** Empty responses alone never stop the monitor: the counter is put back to
    0 by the resolved await before the empty response is counted. *)
Lemma empty_responses_keep_polling (v : JsValue) n :
  (if v is JsObject _ then False else True) ->
  let st := ticks (fun _ => Resolved v) n monitorTaskProgress in
  taskCompleted st = false /\ consecutiveErrorCount st <= 1 /\ trace st = [].
Proof.
  intros Hv. cbv zeta.
  assert (G : forall st, taskCompleted st = false -> trace st = [] ->
              consecutiveErrorCount st <= 1 ->
              taskCompleted (ticks (fun _ => Resolved v) n st) = false
              /\ consecutiveErrorCount (ticks (fun _ => Resolved v) n st) <= 1
              /\ trace (ticks (fun _ => Resolved v) n st) = []).
  { induction n as [| n IH]; intros st Hc Ht Hle; simpl; [auto |].
    apply IH; unfold intervalCallback; rewrite Hc;
      destruct v; try contradiction; simpl; auto; lia. }
  apply G; simpl; auto; lia.
Qed.

(** C4.  Three empty responses in a row leave the monitor polling with a
    consecutive-error count of 1; it keeps polling through the 119th tick and
    is ended by the safety timeout alone, as a success.  Three rejected
    fetches in a row do end it on the third tick with the synthetic
    message. *)
Theorem three_empty_responses_do_not_terminate :
  let empty := fun _ : nat => Resolved JsUndefined in
  let rejecting := fun _ : nat => Rejected "Failed to fetch" in
  let after := fun f k => eventLoop f (Fn false) false k monitorTaskProgress in
  (now (after empty 3%nat), taskCompleted (after empty 3%nat),
   consecutiveErrorCount (after empty 3%nat)) = (1500, false, 1)
  /\ (now (after empty 119%nat), taskCompleted (after empty 119%nat),
      consecutiveErrorCount (after empty 119%nat)) = (59500, false, 1)
  /\ trace (after empty 200%nat)
     = [UpdateProgressBar 100 (Some "处理完成"); HideProgressBar;
        ShowNotification "任务成功完成" success; OnComplete emptyObject]
  /\ (now (after rejecting 3%nat), taskCompleted (after rejecting 3%nat),
      consecutiveErrorCount (after rejecting 3%nat)) = (1500, true, 3)
  /\ trace (after rejecting 3%nat)
     = [UpdateProgressBar 100 (Some "获取进度失败，任务可能已完成")].
Proof. vm_compute. repeat split; reflexivity. Qed.

(** *** The production fetcher *)












End MonitorFacts.

(** * Properties of the stable sort *)

Module SortFacts.
Local Open Scope Z_scope.

Section Sort.
Context {A : Type} (cmp : A -> A -> Z).

Lemma insert_Permutation x l : Permutation (Js.insert cmp x l) (x :: l).
Proof.
  induction l as [| y l IH]; simpl; [reflexivity |].
  destruct (cmp x y <=? 0); [reflexivity |].
  rewrite IH. apply perm_swap.
Qed.

Lemma sort_Permutation l : Permutation (Js.sort cmp l) l.
Proof.
  induction l as [| x l IH]; simpl; [reflexivity |].
  rewrite insert_Permutation. now rewrite IH.
Qed.

(** Elements of one class that never compare greater than each other keep
    their input order. *)
Section Stable.
Variable P : A -> bool.
Hypothesis tied : forall a b, P a = true -> P b = true -> cmp a b <= 0.

Lemma insert_stable x l :
  List.filter P (Js.insert cmp x l) = List.filter P (x :: l).
Proof.
  induction l as [| y l IH]; [reflexivity |].
  simpl Js.insert. destruct (Z.leb_spec (cmp x y) 0) as [Hle | Hgt]; [reflexivity |].
  change (List.filter P (y :: Js.insert cmp x l))
    with (if P y then y :: List.filter P (Js.insert cmp x l)
          else List.filter P (Js.insert cmp x l)).
  rewrite IH. simpl.
  destruct (P x) eqn:Px, (P y) eqn:Py; try reflexivity.
  specialize (tied x y Px Py). lia.
Qed.

Lemma sort_stable l : List.filter P (Js.sort cmp l) = List.filter P l.
Proof.
  induction l as [| x l IH]; [reflexivity |].
  simpl Js.sort. rewrite insert_stable. simpl. now rewrite IH.
Qed.
End Stable.

(** With a comparator that is total and transitive the result is sorted. *)
Section Sorted.
Hypothesis total : forall a b, 0 < cmp a b -> cmp b a <= 0.
Hypothesis trans : forall a b c, cmp a b <= 0 -> cmp b c <= 0 -> cmp a c <= 0.

Lemma insert_sorted x l :
  StronglySorted (fun a b => cmp a b <= 0) l ->
  StronglySorted (fun a b => cmp a b <= 0) (Js.insert cmp x l).
Proof.
  induction 1 as [| y l Hs IH Hall]; simpl.
  - repeat constructor.
  - destruct (Z.leb_spec (cmp x y) 0) as [Hle | Hgt].
    + constructor; [constructor; assumption |].
      constructor; [exact Hle |].
      eapply Forall_impl; [exact Hall |]. simpl. intros z Hz. eapply trans; eauto.
    + constructor; [exact IH |].
      rewrite insert_Permutation. constructor; [| exact Hall].
      apply total. exact Hgt.
Qed.

Lemma sort_sorted l : StronglySorted (fun a b => cmp a b <= 0) (Js.sort cmp l).
Proof.
  induction l as [| x l IH]; simpl; [constructor |].
  apply insert_sorted. exact IH.
Qed.
End Sorted.
End Sort.

Lemma StronglySorted_weaken {A : Type} (R R' : A -> A -> Prop) (l : list A) :
  (forall a b, R a b -> R' a b) -> StronglySorted R l -> StronglySorted R' l.
Proof.
  intros Himp. induction 1 as [| x l Hs IH Hall]; constructor; [exact IH |].
  eapply Forall_impl; [exact Hall |]. intros y. apply Himp.
Qed.

End SortFacts.

(** * Properties of the dependency list *)

Module ListStateFacts.
Import ListState.
Local Open Scope Z_scope.

(** ** Selection across a full replacement *)

Lemma renderItem_inSync (sel : gset string) (deps : list Entry) :
  inSync (List.map (renderItem sel) deps) sel.
Proof.
  unfold inSync. apply Forall_forall. intros it Hin.
  apply list_elem_of_In, List.in_map_iff in Hin. destruct Hin as (dep & <- & _).
  reflexivity.
Qed.

(** C5, as the code has it.  A full replacement leaves the selection set as
    it was, whatever the new list holds, and marks as selected exactly the
    rendered items whose name is in the set. *)
Theorem renderDependencyList_keeps_selection
    (localeCompare : string -> string -> Z) (dependencies : list Entry) (st : Store) :
  let st' := renderDependencyList localeCompare dependencies st in
  selectedDependencies st' = selectedDependencies st
  /\ inSync (default [] (listElement st')) (selectedDependencies st').
Proof.
  unfold renderDependencyList.
  destruct (listElement st) as [items |]; simpl.
  - destruct (List.length dependencies =? 0)%nat; simpl.
    + split; [reflexivity | constructor].
    + split; [reflexivity | apply renderItem_inSync].
  - split; [reflexivity | constructor].
Qed.

(** C5 fails as stated: "torch" is selected, the list is replaced by one
    that holds "numpy" alone, and "torch" is still in the selection set. *)
Lemma renderDependencyList_does_not_prune :
  let st := mkStore [] {["torch"]} (Some []) [] false in
  let st' := renderDependencyList Js.compareCodeUnits [numpy] st in
  List.map name (allDependencies st') = ["numpy"]
  /\ selectedDependencies st' = {["torch"]}.
Proof. split; reflexivity. Qed.

(** ** The order of the list *)

Section Order.
Variable localeCompare : string -> string -> Z.

Lemma compareDependencies_flagRank a b :
  compareDependencies localeCompare a b
  = if flagRank a <? flagRank b then -1
    else if flagRank b <? flagRank a then 1
    else localeCompare (name a) (name b).
Proof.
  unfold compareDependencies, flagRank.
  destruct (isSystem a), (isSystem b), (isAppRequired a), (isAppRequired b),
    (isCore a), (isCore b), (isAIModel a), (isAIModel b); reflexivity.
Qed.

Lemma compareDependencies_precedes a b :
  compareDependencies localeCompare a b <= 0 <-> precedes localeCompare a b.
Proof.
  unfold compareDependencies, precedes.
  destruct (isSystem a), (isSystem b), (isAppRequired a), (isAppRequired b),
    (isCore a), (isCore b), (isAIModel a), (isAIModel b); simpl;
    intuition (try discriminate; try lia).
Qed.

Hypothesis antisymmetric :
  forall a b, Z.sgn (localeCompare b a) = - Z.sgn (localeCompare a b).
Hypothesis transitive :
  forall a b c, localeCompare a b <= 0 -> localeCompare b c <= 0 ->
                localeCompare a c <= 0.
Hypothesis separates : forall a b, localeCompare a b = 0 -> a = b.

Lemma compareDependencies_total a b :
  0 < compareDependencies localeCompare a b ->
  compareDependencies localeCompare b a <= 0.
Proof.
  rewrite !compareDependencies_flagRank. pose proof (antisymmetric (name a) (name b)).
  destruct (Z.ltb_spec (flagRank a) (flagRank b)),
    (Z.ltb_spec (flagRank b) (flagRank a)); lia.
Qed.

Lemma compareDependencies_trans a b c :
  compareDependencies localeCompare a b <= 0 ->
  compareDependencies localeCompare b c <= 0 ->
  compareDependencies localeCompare a c <= 0.
Proof.
  rewrite !compareDependencies_flagRank.
  pose proof (transitive (name a) (name b) (name c)).
  destruct (Z.ltb_spec (flagRank a) (flagRank b)),
    (Z.ltb_spec (flagRank b) (flagRank a)),
    (Z.ltb_spec (flagRank b) (flagRank c)),
    (Z.ltb_spec (flagRank c) (flagRank b)),
    (Z.ltb_spec (flagRank a) (flagRank c)),
    (Z.ltb_spec (flagRank c) (flagRank a)); lia.
Qed.

Lemma compareDependencies_same_name a b :
  compareDependencies localeCompare a b <= 0 ->
  compareDependencies localeCompare b a <= 0 ->
  name a = name b.
Proof.
  rewrite !compareDependencies_flagRank.
  pose proof (antisymmetric (name a) (name b)).
  pose proof (separates (name a) (name b)).
  destruct (Z.ltb_spec (flagRank a) (flagRank b)),
    (Z.ltb_spec (flagRank b) (flagRank a)); try lia.
  intros. apply separates. lia.
Qed.

Lemma same_name_same_entry (l : list Entry) a b :
  NoDup (List.map name l) -> a ∈ l -> b ∈ l -> name a = name b -> a = b.
Proof.
  induction l as [| x l IH]; simpl; intros Hnd Ha Hb Hab.
  - inversion Ha.
  - apply NoDup_cons in Hnd as [Hx Hnd].
    apply elem_of_cons in Ha as [-> | Ha]; apply elem_of_cons in Hb as [-> | Hb].
    + reflexivity.
    + exfalso. apply Hx. rewrite Hab. apply list_elem_of_In, List.in_map.
      now apply list_elem_of_In.
    + exfalso. apply Hx. rewrite <- Hab. apply list_elem_of_In, List.in_map.
      now apply list_elem_of_In.
    + now apply IH.
Qed.

Lemma sorted_entries l :
  StronglySorted (precedes localeCompare) (Js.sort (compareDependencies localeCompare) l).
Proof.
  eapply SortFacts.StronglySorted_weaken;
    [| apply SortFacts.sort_sorted;
       [apply compareDependencies_total | apply compareDependencies_trans] ].
  intros a b. apply compareDependencies_precedes.
Qed.

Lemma sort_arrival_order l l' :
  NoDup (List.map name l) -> Permutation l l' ->
  Js.sort (compareDependencies localeCompare) l'
  = Js.sort (compareDependencies localeCompare) l.
Proof.
  intros Hnd Hperm.
  apply (StronglySorted_unique_strong (fun a b => compareDependencies localeCompare a b <= 0)).
  - intros a b Ha Hb Hab Hba.
    apply (same_name_same_entry l); [exact Hnd | | | ].
    + rewrite Hperm. now rewrite <- (SortFacts.sort_Permutation (compareDependencies localeCompare) l').
    + now rewrite <- (SortFacts.sort_Permutation (compareDependencies localeCompare) l).
    + now apply compareDependencies_same_name.
  - apply SortFacts.sort_sorted;
      [apply compareDependencies_total | apply compareDependencies_trans].
  - apply SortFacts.sort_sorted;
      [apply compareDependencies_total | apply compareDependencies_trans].
  - rewrite !SortFacts.sort_Permutation. now symmetry.
Qed.

(** C6.  On a page that has the list element, and with a [localeCompare]
    that is a total order on names, a full replacement stores and renders
    the entries in the fixed precedence: it keeps every entry, the stored
    list is sorted by [precedes], the rendered items follow the stored
    order, and any other arrival order of entries with distinct names
    gives the same stored list. *)
Theorem renderDependencyList_sorts_by_precedence
    (dependencies arrival : list Entry) (st : Store)
    (Hpage : is_Some (listElement st))
    (Hkeys : NoDup (List.map name dependencies))
    (Harrival : Permutation dependencies arrival) :
  let st' := renderDependencyList localeCompare dependencies st in
  Permutation (allDependencies st') dependencies
  /\ StronglySorted (precedes localeCompare) (allDependencies st')
  /\ List.map data_name (default [] (listElement st'))
     = List.map name (allDependencies st')
  /\ allDependencies (renderDependencyList localeCompare arrival st)
     = allDependencies st'.
Proof.
  destruct Hpage as [items Hitems].
  assert (Hsame : forall l,
             allDependencies (renderDependencyList localeCompare l st)
             = Js.sort (compareDependencies localeCompare) l
             /\ List.map data_name
                  (default [] (listElement (renderDependencyList localeCompare l st)))
                = List.map name (Js.sort (compareDependencies localeCompare) l)).
  { intros l. unfold renderDependencyList. rewrite Hitems.
    destruct l as [| x l]; [split; reflexivity |].
    change (List.length (x :: l) =? 0)%nat with false. cbv iota. simpl.
    split; [reflexivity |]. rewrite List.map_map. reflexivity. }
  cbv zeta.
  destruct (Hsame dependencies) as [-> ->], (Hsame arrival) as [-> _].
  split; [apply SortFacts.sort_Permutation |].
  split; [apply sorted_entries |].
  split; [reflexivity |].
  apply sort_arrival_order; assumption.
Qed.
End Order.

(** ** Comparison by code units is a total order *)

Lemma compareCodeUnits_antisymmetric a b :
  Z.sgn (Js.compareCodeUnits b a) = - Z.sgn (Js.compareCodeUnits a b).
Proof.
  unfold Js.compareCodeUnits. rewrite (String.compare_antisym a b).
  destruct (String.compare b a); reflexivity.
Qed.

Lemma compareCodeUnits_separates a b : Js.compareCodeUnits a b = 0 -> a = b.
Proof.
  unfold Js.compareCodeUnits. intros H. apply String.compare_eq_iff.
  destruct (String.compare a b); [reflexivity | discriminate | discriminate].
Qed.

Lemma ascii_compare_refl c : Ascii.compare c c = Eq.
Proof. unfold Ascii.compare. apply N.compare_refl. Qed.

Lemma string_compare_trans a b c :
  String.compare a b <> Gt -> String.compare b c <> Gt -> String.compare a c <> Gt.
Proof.
  revert b c. induction a as [| x a IH]; intros [| y b] [| z c]; simpl;
    try congruence.
  destruct (Ascii.compare x y) eqn:Exy, (Ascii.compare y z) eqn:Eyz;
    try congruence; intros Hab Hbc.
  - apply Ascii.compare_eq_iff in Exy, Eyz. subst.
    rewrite ascii_compare_refl. eapply IH; eauto.
  - apply Ascii.compare_eq_iff in Exy. subst. rewrite Eyz. discriminate.
  - apply Ascii.compare_eq_iff in Eyz. subst. rewrite Exy. discriminate.
  - unfold Ascii.compare in *. rewrite N.compare_lt_iff in Exy, Eyz.
    assert ((N_of_ascii x ?= N_of_ascii z)%N = Lt) as -> by (apply N.compare_lt_iff; lia).
    discriminate.
Qed.

Lemma compareCodeUnits_transitive a b c :
  Js.compareCodeUnits a b <= 0 -> Js.compareCodeUnits b c <= 0 ->
  Js.compareCodeUnits a c <= 0.
Proof.
  unfold Js.compareCodeUnits.
  pose proof (string_compare_trans a b c) as H. revert H.
  destruct (String.compare a b), (String.compare b c), (String.compare a c);
    intros H Hab Hbc; try lia; exfalso; apply H; congruence.
Qed.

Lemma renderDependencyList_sorts_by_precedence_witness :
  List.map name
    (allDependencies
       (renderDependencyList Js.compareCodeUnits [torch; numpy; flask; pip] page))
  = ["pip"; "flask"; "numpy"; "torch"]
  /\ allDependencies
       (renderDependencyList Js.compareCodeUnits [pip; torch; numpy; flask] page)
     = allDependencies
         (renderDependencyList Js.compareCodeUnits [torch; numpy; flask; pip] page).
Proof.
  split; [reflexivity |].
  apply (renderDependencyList_sorts_by_precedence Js.compareCodeUnits
           compareCodeUnits_antisymmetric compareCodeUnits_transitive
           compareCodeUnits_separates
           [torch; numpy; flask; pip] [pip; torch; numpy; flask] page).
  - eexists. reflexivity.
  - apply (bool_decide_unpack _). vm_compute. exact I.
  - symmetry. apply (Permutation_cons_append [torch; numpy; flask] pip).
Defined.

(** ** Filtering *)

Lemma filterItem_fold filterType items done (sel : gset string) :
  List.fold_left (filterItem filterType) items (done, sel)
  = (done ++ List.map (filtered filterType) items,
     sel ∖ list_to_set (deselected filterType items)).
Proof.
  revert done sel. induction items as [| it items IH]; intros done sel.
  - simpl. rewrite List.app_nil_r. f_equal. symmetry. apply difference_empty_L.
  - simpl List.fold_left. unfold deselected, filtered. simpl List.filter. simpl List.map.
    destruct (shouldShow filterType it); simpl.
    + rewrite IH, <- List.app_assoc. reflexivity.
    + destruct (cls_selected it && negb (String.eqb (data_name it) "")); simpl;
        rewrite IH, <- List.app_assoc; simpl; f_equal.
      now rewrite difference_difference_l_L.
Qed.

Lemma filterDependencies_result filterType st items :
  listElement st = Some items ->
  listElement (filterDependencies filterType st)
  = Some (List.map (filtered filterType) items)
  /\ selectedDependencies (filterDependencies filterType st)
     = selectedDependencies st ∖ list_to_set (deselected filterType items).
Proof.
  intros Hitems. unfold filterDependencies. rewrite Hitems. simpl.
  rewrite filterItem_fold. simpl. split; reflexivity.
Qed.

Lemma deselected_all items : deselected "all" items = [].
Proof. induction items as [| it items IH]; [reflexivity | exact IH]. Qed.

(** X22.  On a page whose items mirror the selection set and carry a name,
    filtering decides the visibility of every item from its classes alone,
    leaves name and classes as they were, and takes every item that it
    hides out of the selection set, so that no hidden item is selected
    afterwards; nothing is added to the selection; and the filter "all"
    shows every item and leaves the selection set as it was. *)
Theorem filterDependencies_deselects_hidden
    (filterType : string) (st : Store) (items : list Item)
    (Hpage : listElement st = Some items)
    (Hsync : inSync items (selectedDependencies st))
    (Hnames : Forall (fun it => data_name it <> "") items) :
  let st' := filterDependencies filterType st in
  let items' := default [] (listElement st') in
  Forall2 (fun it it' =>
             display it' = (if shouldShow filterType it then DisplayFlex else DisplayNone)
             /\ data_name it' = data_name it
             /\ shouldShow filterType it' = shouldShow filterType it) items items'
  /\ Forall (fun it' =>
              display it' = DisplayNone ->
              cls_selected it' = false /\ data_name it' ∉ selectedDependencies st') items'
  /\ selectedDependencies st' ⊆ selectedDependencies st
  /\ Forall (fun it' => display it' = DisplayFlex)
       (default [] (listElement (filterDependencies "all" st)))
  /\ selectedDependencies (filterDependencies "all" st) = selectedDependencies st.
Proof.
  cbv zeta.
  destruct (filterDependencies_result filterType st items Hpage) as [-> ->].
  destruct (filterDependencies_result "all" st items Hpage) as [-> ->].
  simpl default. split; [| split; [| split; [| split]]].
  - clear Hsync Hnames Hpage. induction items as [| it items IH]; simpl; constructor;
      [| exact IH].
    unfold filtered, shouldShow.
    destruct (shouldShow filterType it) eqn:E; unfold shouldShow in E; rewrite E;
      [| destruct (cls_selected it && _)]; simpl; rewrite ?E; auto.
  - apply Forall_forall. intros it' Hin.
    apply list_elem_of_In, List.in_map_iff in Hin. destruct Hin as (it & <- & Hin).
    apply list_elem_of_In in Hin.
    pose proof (proj1 (Forall_forall _ _) Hsync it Hin) as Hs.
    pose proof (proj1 (Forall_forall _ _) Hnames it Hin) as Hn.
    simpl in Hs.
    assert (Hne : String.eqb (data_name it) "" = false) by now apply String.eqb_neq.
    unfold filtered.
    destruct (shouldShow filterType it) eqn:Eshow; simpl; [discriminate |].
    rewrite Hne. simpl. rewrite andb_true_r.
    destruct (cls_selected it) eqn:Esel; simpl; intros _; split; try reflexivity.
    + intros Hmem. apply elem_of_difference in Hmem as [_ Hnot]. apply Hnot.
      apply elem_of_list_to_set. unfold deselected.
      apply list_elem_of_In, List.in_map. apply List.filter_In. split.
      * now apply list_elem_of_In.
      * now rewrite Eshow, Esel, Hne.
    + exact Esel.
    + intros Hmem. apply elem_of_difference in Hmem as [Hmem _].
      symmetry in Hs. apply bool_decide_eq_false in Hs. contradiction.
  - apply subseteq_difference_l. reflexivity.
  - apply Forall_forall. intros it' Hin.
    apply list_elem_of_In, List.in_map_iff in Hin. destruct Hin as (it & <- & _).
    reflexivity.
  - rewrite deselected_all. apply difference_empty_L.
Qed.

Lemma filterDependencies_deselects_hidden_witness :
  let st := mkStore [] {["numpy"]} (Some [pipItem; numpyItem]) [] true in
  List.map display (default [] (listElement (filterDependencies "system" st)))
  = [DisplayFlex; DisplayNone]
  /\ selectedDependencies (filterDependencies "system" st) ⊆ selectedDependencies st.
Proof.
  split; [reflexivity |].
  apply (filterDependencies_deselects_hidden "system"
           (mkStore [] {["numpy"]} (Some [pipItem; numpyItem]) [] true)
           [pipItem; numpyItem]).
  - reflexivity.
  - repeat constructor.
  - repeat constructor; discriminate.
Defined.

End ListStateFacts.

(** * Properties of the search ranking *)

Module RankingFacts.
Import ListState Ranking.
Local Open Scope Z_scope.

Lemma sort_map {A B : Type} (f : A -> B) (cmp : B -> B -> Z) (l : list A) :
  Js.sort cmp (List.map f l) = List.map f (Js.sort (fun a b => cmp (f a) (f b)) l).
Proof.
  assert (Hins : forall x l',
             Js.insert cmp (f x) (List.map f l')
             = List.map f (Js.insert (fun a b => cmp (f a) (f b)) x l')).
  { intros x l'. induction l' as [| y l' IH]; simpl; [reflexivity |].
    destruct (cmp (f x) (f y) <=? 0); simpl; [reflexivity | now rewrite IH]. }
  induction l as [| x l IH]; simpl; [reflexivity |]. now rewrite IH, Hins.
Qed.

(** The ranking is the stable sort of the items by descending score. *)
Lemma rank_sort query items :
  rank query items = Js.sort (fun a b => score query b - score query a) items.
Proof.
  unfold rank, scoredItems.
  rewrite (sort_map (fun it => (it, score query it)) (fun a b => snd b - snd a)).
  simpl. rewrite List.map_map. simpl. apply List.map_id.
Qed.

Lemma toLowerCase_length s : String.length (toLowerCase s) = String.length s.
Proof. induction s as [| c s IH]; simpl; [reflexivity | now rewrite IH]. Qed.

Lemma substring_length s : forall m n,
  String.length (String.substring m n s) = Nat.min n (String.length s - m).
Proof.
  induction s as [| c s IH]; intros [| m] [| n]; simpl; try reflexivity.
  - now rewrite IH, Nat.sub_0_r.
  - apply IH.
  - apply IH.
Qed.

(** An occurrence of a non-empty query lies within the key. *)
Lemma indexOf_bound k q i :
  q <> "" -> indexOf k q = Some i ->
  (i + String.length q <= String.length k)%nat.
Proof.
  intros Hq Hi. apply String.index_correct1 in Hi.
  apply (f_equal String.length) in Hi. rewrite substring_length in Hi.
  assert (String.length q <> 0%nat) by (destruct q; [contradiction | discriminate]).
  lia.
Qed.

Lemma startsWith_indexOf k q : startsWith k q = true -> indexOf k q = Some 0%nat.
Proof.
  unfold startsWith, indexOf. destruct k as [| c k]; simpl.
  - destruct q; [reflexivity | discriminate].
  - intros ->. reflexivity.
Qed.

(** The score in the words of the specification. *)
Lemma score_formula query it :
  query <> "" ->
  let k := toLowerCase (data_name it) in
  let q := toLowerCase query in
  score query it
  = if startsWith k q then 2000 - len k + (if len k - len q <? 3 then 500 else 0)
    else match indexOf k q with
         | Some i => 1000 - Z.of_nat i - len k
         | None => 0
         end.
Proof.
  intros Hq. cbv zeta. unfold score.
  destruct (String.eqb_spec (toLowerCase (data_name it)) "") as [-> | Hk].
  - destruct query as [| c query]; [contradiction | reflexivity].
  - destruct (startsWith _ _); [| reflexivity].
    destruct (_ <? 3); lia.
Qed.

Lemma score_unmatched query it : matches query it = false -> score query it = 0.
Proof.
  unfold matches, score. intros Hm.
  destruct (String.eqb _ ""); [reflexivity |].
  destruct (startsWith _ _) eqn:Hp.
  - apply startsWith_indexOf in Hp. rewrite Hp in Hm. discriminate.
  - destruct (indexOf _ _); [discriminate | reflexivity].
Qed.

Lemma score_matched query it :
  query <> "" -> matches query it = true -> len (data_name it) <= 500 ->
  0 < score query it.
Proof.
  intros Hq Hm Hlen. rewrite (score_formula query it Hq). cbv zeta.
  unfold matches in Hm. unfold len in *. rewrite toLowerCase_length in *.
  destruct (startsWith _ _).
  - destruct (_ <? 3); lia.
  - destruct (indexOf _ _) as [i |] eqn:Hi; [| discriminate].
    apply indexOf_bound in Hi.
    + rewrite !toLowerCase_length in Hi.
      assert (String.length query <> 0%nat) by (destruct query; [contradiction | discriminate]).
      lia.
    + destruct query; [contradiction | discriminate].
Qed.

(** C7, as the code has it.  For a non-empty query the ranking keeps every
    entry, orders the entries by descending score, and keeps entries of equal
    score in their input order, where the score is the one of the
    specification; an entry that does not contain the query scores 0, an
    entry that contains it and has a key of at most 500 characters scores
    above 0, and after an entry that scores 0 or less only such entries
    follow. *)
Theorem rank_orders_by_score (query : string) (items : list Item)
    (Hquery : query <> "") :
  let out := rank query items in
  (forall it,
      let k := toLowerCase (data_name it) in
      let q := toLowerCase query in
      score query it
      = if startsWith k q then 2000 - len k + (if len k - len q <? 3 then 500 else 0)
        else match indexOf k q with
             | Some i => 1000 - Z.of_nat i - len k
             | None => 0
             end)
  /\ Permutation out items
  /\ StronglySorted (fun a b => score query b <= score query a) out
  /\ (forall s,
        List.filter (fun it => score query it =? s) out
        = List.filter (fun it => score query it =? s) items)
  /\ (forall it, matches query it = false -> score query it = 0)
  /\ (forall it, matches query it = true -> len (data_name it) <= 500 ->
                 0 < score query it)
  /\ (forall before it after,
        out = before ++ it :: after -> score query it <= 0 ->
        Forall (fun a => score query a <= 0) after).
Proof.
  cbv zeta. rewrite rank_sort.
  assert (Hsorted : StronglySorted (fun a b => score query b <= score query a)
                      (Js.sort (fun a b => score query b - score query a) items)).
  { eapply SortFacts.StronglySorted_weaken;
      [| apply SortFacts.sort_sorted; intros; lia].
    simpl. intros; lia. }
  split; [intros it; apply score_formula; exact Hquery |].
  split; [apply SortFacts.sort_Permutation |].
  split; [exact Hsorted |].
  split.
  { intros s. apply SortFacts.sort_stable. intros a b Ha Hb.
    apply Z.eqb_eq in Ha, Hb. lia. }
  split; [intros it; apply score_unmatched |].
  split; [intros it; apply score_matched; exact Hquery |].
  intros before it after Hout Hit. rewrite Hout in Hsorted.
  apply StronglySorted_app_1_r in Hsorted.
  apply StronglySorted_inv in Hsorted as [_ Hall].
  eapply Forall_impl; [exact Hall |]. simpl. intros; lia.
Qed.

Lemma rank_orders_by_score_witness :
  List.map data_name (rank "num" (List.map item ["pandas"; "numexpr"; "numpy"; "numba"]))
  = ["numpy"; "numba"; "numexpr"; "pandas"]
  /\ Permutation (rank "num" (List.map item ["pandas"; "numexpr"; "numpy"; "numba"]))
       (List.map item ["pandas"; "numexpr"; "numpy"; "numba"]).
Proof.
  split; [reflexivity |].
  apply (rank_orders_by_score "num" (List.map item ["pandas"; "numexpr"; "numpy"; "numba"])).
  discriminate.
Defined.

(** C7 fails as stated: a key of 1000 characters that contains the query at
    index 1 scores -1, and the entry is placed after an entry that does not
    contain the query at all. *)
Lemma rank_long_key_after_unmatched :
  let long := item (String "x" (repeatChar 999 "a")) in
  let other := item "zzz" in
  (matches "a" long, score "a" long) = (true, -1)
  /\ (matches "a" other, score "a" other) = (false, 0)
  /\ rank "a" [long; other] = [other; long].
Proof. vm_compute. repeat split; reflexivity. Qed.

End RankingFacts.

(** * Properties of the refresh after a mutation *)

Module SyncFacts.
Import ListState Sync.

(** A version switch falls back to the full reload when the targeted
    refresh yields nothing. *)
Lemma switchVersion_falls_back packageName version fetched upsertThrows :
  fst (refreshSingleDependency packageName true fetched upsertThrows) = None ->
  switchVersionCompleted packageName version fetched upsertThrows
  = [GetSingleDependency packageName true; RefreshDependencies false].
Proof.
  unfold switchVersionCompleted, refreshSingleDependency.
  destruct fetched; [reflexivity | reflexivity |].
  destruct upsertThrows; [reflexivity | discriminate].
Qed.

(** C9.  When the targeted refresh of "requests" yields nothing, the
    completion callback of a version switch reloads the whole list, the one
    of an update stops after the failed fetch, and the one of an install is
    the full reload alone, the targeted fetch having been made when the
    task was submitted. *)
Theorem update_has_no_fallback :
  switchVersionCompleted "requests" "2.32.0" FetchEmpty false
  = [GetSingleDependency "requests" true; RefreshDependencies false]
  /\ updateCompleted "requests" FetchEmpty false = [GetSingleDependency "requests" true]
  /\ updateCompleted "requests" FetchRejected false = [GetSingleDependency "requests" true]
  /\ installCompleted = [RefreshDependencies false]
  /\ installSubmitted "requests" FetchEmpty false = [GetSingleDependency "requests" true]
  /\ List.filter isFullReload (updateCompleted "requests" FetchEmpty false) = []
  /\ List.filter isTargetedFetch installCompleted = [].
Proof. repeat split; reflexivity. Qed.

End SyncFacts.

(** * More properties of the monitor *)

Module MonitorRunFacts.
Import Monitor MonitorRun.
Local Open Scope Z_scope.

Local Arguments onCompleteCount : simpl never.
Local Arguments notificationCount : simpl never.
Local Arguments delayedCallback : simpl never.
Local Arguments intervalCallback : simpl never.
Local Arguments safetyCallback : simpl never.
Local Arguments cleanupAndComplete : simpl never.
Local Arguments handleProgress : simpl never.

Lemma framed_refl st : framed st st.
Proof. split; reflexivity. Qed.

Lemma framed_trans st1 st2 st3 : framed st1 st2 -> framed st2 st3 -> framed st1 st3.
Proof. intros [A B] [C D]. split; congruence. Qed.

Lemma framed_cleanup message isError progressData st :
  framed st (cleanupAndComplete message isError progressData st)
  /\ calls (cleanupAndComplete message isError progressData st) = calls st.
Proof.
  unfold cleanupAndComplete, framed, notificationCount.
  destruct (taskCompleted st); simpl; [auto |].
  rewrite List.filter_app, List.length_app. simpl. repeat split; lia.
Qed.

Lemma framed_handleProgress p st :
  framed st (handleProgress p st) /\ calls (handleProgress p st) = calls st.
Proof.
  unfold handleProgress.
  destruct (default 0 (p_progress p) <? _); cbv zeta beta iota;
    repeat match goal with
           | |- context [if ?b then _ else _] => destruct b
           end;
    match goal with
    | |- framed ?s (cleanupAndComplete ?m ?e ?d ?s') /\ _ =>
        destruct (framed_cleanup m e d s') as [[Hn Hc] Hk];
        unfold framed; rewrite Hn, Hc, Hk
    | _ => unfold framed
    end;
    unfold notificationCount; simpl;
    rewrite ?List.filter_app, ?List.length_app; simpl; repeat split; lia.
Qed.

(** The delayed closure shows one notification, and one more when the
    callback throws. *)
Lemma delayedCallback_notifications throws c st :
  notificationCount (delayedCallback (Fn throws) c st)
  = (notificationCount st + if throws then 2%nat else 1%nat)%nat
  /\ now (delayedCallback (Fn throws) c st) = now st
  /\ calls (delayedCallback (Fn throws) c st) = calls st.
Proof.
  unfold delayedCallback.
  destruct (c_isError c);
    [| destruct (c_progressData c) as [[? ? ? ? [[|? ?]|]]|];
       [| destruct (List.filter _ _) | |] ];
    destruct throws; simpl;
    unfold notificationCount; simpl;
    rewrite ?List.filter_app, ?List.length_app; simpl;
    repeat split; lia.
Qed.

Lemma framed_answered settled st :
  framed st (answered settled st) /\ calls (answered settled st) = calls st.
Proof.
  unfold answered.
  assert (Hcount : forall message (st1 : State),
             framed st st1 -> calls st1 = calls st ->
             framed st (if 3 <=? consecutiveErrorCount st1
                        then cleanupAndComplete message true None st1 else st1)
             /\ calls (if 3 <=? consecutiveErrorCount st1
                       then cleanupAndComplete message true None st1 else st1)
                = calls st).
  { intros message st1 Hf Hk. destruct (3 <=? _); [| now split].
    destruct (framed_cleanup message true None st1) as [Hf' Hk'].
    split; [eapply framed_trans; eauto | congruence]. }
  destruct settled as [m | [ | | | p]]; cbv zeta;
    try (apply Hcount; [split; reflexivity | reflexivity]).
  destruct (Js.truthy (p_error p)).
  - match goal with
    | |- framed _ (cleanupAndComplete ?m ?e ?d ?s') /\ _ =>
        destruct (framed_cleanup m e d s') as [[Hn Hc] Hk]
    end.
    unfold framed. rewrite Hn, Hc, Hk. repeat split.
  - match goal with
    | |- framed _ (handleProgress ?q ?s') /\ _ =>
        destruct (framed_handleProgress q s') as [[Hn Hc] Hk]
    end.
    unfold framed. rewrite Hn, Hc, Hk. repeat split.
Qed.

(** *** Fetches *)

Lemma step_onSchedule getProgressFunc throws b e :
  invariant (monitor b) -> onSchedule (monitor b) ->
  onSchedule (monitor (step getProgressFunc (Fn throws) b e)).
Proof.
  intros Hinv Hsch.
  assert (Hbound : taskCompleted (monitor b) = false ->
                   (calls (monitor b) <= 120)%nat).
  { intros Hc. unfold onSchedule, invariant in *. rewrite Hc in *.
    destruct Hinv as (_ & (t & Hi & Ht) & _). rewrite Hsch in Hi.
    injection Hi as <-. lia. }
  destruct (MonitorFacts.step_shape getProgressFunc (Fn throws) b e Hinv)
    as [[-> _] | [(_ & Hc & t & c & Hd & ->) | [(_ & Hc & ->)
       | [(_ & Hc & t & Hi & Ht & ->) | (_ & k & ->)]]]].
  - exact Hsch.
  - destruct (MonitorFacts.delayedCallback_count throws c
                (set_delayed [] (set_now t (monitor b)))) as (_ & Htc & _).
    destruct (delayedCallback_notifications throws c
                (set_delayed [] (set_now t (monitor b)))) as (_ & _ & Hk).
    unfold onSchedule in *. rewrite Htc, Hk. simpl. now rewrite Hc in *.
  - unfold safetyCallback. simpl taskCompleted. rewrite Hc. simpl negb. cbv iota.
    unfold onSchedule.
    rewrite MonitorFacts.cleanupAndComplete_completed.
    destruct (framed_cleanup defaultMessage false None
                (set_safetyTimeout None (set_now 60000 (monitor b)))) as [_ ->].
    now apply Hbound.
  - unfold onSchedule in *. simpl. rewrite Hc in *. rewrite Hi in Hsch.
    injection Hsch as ->. f_equal. lia.
  - destruct (framed_answered (getProgressFunc k) (monitor b)) as [_ Hk].
    destruct (taskCompleted (monitor b)) eqn:Hc.
    + destruct (MonitorFacts.answered_completed (getProgressFunc k) (monitor b) Hc)
        as (Qt & _).
      unfold onSchedule in *. rewrite Qt, Hk, Hc in *. exact Hsch.
    + destruct (MonitorFacts.answered_running (getProgressFunc k) (monitor b) Hc)
        as [(Qt & _ & Qi & _) | (Ft & _)].
      * unfold onSchedule in *. rewrite Qt, Qi, Hk, Hc in *. exact Hsch.
      * unfold onSchedule. rewrite Ft, Hk. now apply Hbound.
Qed.

(** A monitor that has completed starts no fetch any more. *)
Lemma calls_frozen getProgressFunc throws more : forall b,
  invariant (monitor b) -> taskCompleted (monitor b) = true ->
  calls (monitor (List.fold_left (step getProgressFunc (Fn throws)) more b))
  = calls (monitor b).
Proof.
  induction more as [| e more IH]; intros b Hinv Hc; simpl; [reflexivity |].
  destruct (MonitorFacts.step_invariant getProgressFunc throws b e Hinv) as (Hinv' & _).
  assert (Hstep : taskCompleted (monitor (step getProgressFunc (Fn throws) b e)) = true
                  /\ calls (monitor (step getProgressFunc (Fn throws) b e))
                     = calls (monitor b)).
  { destruct (MonitorFacts.step_shape getProgressFunc (Fn throws) b e Hinv)
      as [[-> _] | [(_ & _ & t & c & Hd & ->) | [(_ & Hc' & _)
         | [(_ & Hc' & _) | (_ & k & ->)]]]]; try congruence.
    - now split.
    - destruct (MonitorFacts.delayedCallback_count throws c
                  (set_delayed [] (set_now t (monitor b)))) as (_ & Htc & _).
      destruct (delayedCallback_notifications throws c
                  (set_delayed [] (set_now t (monitor b)))) as (_ & _ & Hk).
      rewrite Htc, Hk. now split.
    - destruct (MonitorFacts.answered_completed (getProgressFunc k) (monitor b) Hc)
        as (Qt & _).
      destruct (framed_answered (getProgressFunc k) (monitor b)) as [_ Hk].
      rewrite Qt, Hk. now split. }
  destruct Hstep as [Hc' Hk]. rewrite IH; assumption.
Qed.

(** X1.  Whatever the fetcher answers and however late its answers come, a
    monitor starts at most 120 fetches, and it starts none after it has
    completed. *)
Theorem at_most_120_fetches
    (getProgressFunc : nat -> Settled) (throws : bool) (events more : list Event) :
  let st := monitor (runEvents getProgressFunc (Fn throws) events) in
  let later := monitor (runEvents getProgressFunc (Fn throws) (events ++ more)) in
  (calls st <= 120)%nat
  /\ (if taskCompleted st then calls later = calls st
      else intervalId st = Some (500 * (Z.of_nat (calls st) + 1))).
Proof.
  cbv zeta.
  assert (Hsch : forall es,
             onSchedule (monitor (runEvents getProgressFunc (Fn throws) es))).
  { induction es as [| e es IH] using rev_ind; [reflexivity |].
    rewrite MonitorFacts.runEvents_snoc. apply step_onSchedule; [| exact IH].
    apply MonitorFacts.runEvents_invariant. }
  destruct (MonitorFacts.runEvents_invariant getProgressFunc throws events)
    as [Hinv _].
  specialize (Hsch events). unfold onSchedule in Hsch.
  destruct (taskCompleted _) eqn:Hc.
  - split; [exact Hsch |].
    unfold runEvents at 1. rewrite List.fold_left_app.
    now apply calls_frozen.
  - split; [| exact Hsch].
    unfold invariant in Hinv. rewrite Hc in Hinv.
    destruct Hinv as (_ & (t & Hi & Ht) & _). rewrite Hsch in Hi.
    injection Hi as <-. lia.
Qed.

(** *** Notifications *)

Lemma step_outcomes getProgressFunc (throws : bool) b e :
  invariant (monitor b) -> outcomes (if throws then 2%nat else 1%nat) (monitor b) ->
  outcomes (if throws then 2%nat else 1%nat)
    (monitor (step getProgressFunc (Fn throws) b e)).
Proof.
  intros Hinv Hout.
  destruct (MonitorFacts.step_shape getProgressFunc (Fn throws) b e Hinv)
    as [[-> _] | [(_ & Hc & t & c & Hd & ->) | [(_ & Hc & ->)
       | [(_ & Hc & t & Hi & Ht & ->) | (_ & k & ->)]]]].
  - exact Hout.
  - unfold outcomes in *. rewrite Hc in Hout.
    destruct (MonitorFacts.delayedCallback_count throws c
                (set_delayed [] (set_now t (monitor b)))) as (_ & Htc & _ & _ & Hdel).
    destruct (delayedCallback_notifications throws c
                (set_delayed [] (set_now t (monitor b)))) as (Hn & _ & _).
    rewrite Htc, Hdel, Hn. simpl. rewrite Hc. rewrite Hd in Hout. simpl in Hout.
    change (notificationCount (set_delayed [] (set_now t (monitor b))))
      with (notificationCount (monitor b)).
    destruct throws; lia.
  - unfold outcomes in *. rewrite Hc in Hout.
    unfold invariant in Hinv. rewrite Hc in Hinv. destruct Hinv as (_ & _ & Hd & _).
    unfold safetyCallback. simpl taskCompleted. rewrite Hc. simpl negb. cbv iota.
    set (s0 := set_safetyTimeout None (set_now 60000 (monitor b))).
    destruct (MonitorFacts.cleanupAndComplete_fired defaultMessage false None s0 Hc)
      as (Ft & _ & _ & [c Fd] & _).
    destruct (framed_cleanup defaultMessage false None s0) as [[_ Fn'] _].
    rewrite Ft, Fd, Fn'. simpl. rewrite Hd. simpl.
    change (notificationCount s0) with (notificationCount (monitor b)).
    destruct throws; lia.
  - unfold outcomes in *. simpl. rewrite Hc in *. exact Hout.
  - destruct (framed_answered (getProgressFunc k) (monitor b)) as [[_ Fn'] _].
    destruct (taskCompleted (monitor b)) eqn:Hc.
    + destruct (MonitorFacts.answered_completed (getProgressFunc k) (monitor b) Hc)
        as (Qt & _ & _ & Qd & _).
      unfold outcomes in *. rewrite Qt, Qd, Fn', Hc in *. exact Hout.
    + unfold invariant in Hinv. rewrite Hc in Hinv. destruct Hinv as (_ & _ & Hd & _).
      destruct (MonitorFacts.answered_running (getProgressFunc k) (monitor b) Hc)
        as [(Qt & _ & _ & Qd & _) | (Ft & _ & _ & [c Fd] & _)].
      * unfold outcomes in *. rewrite Qt, Fn', Hc in *. exact Hout.
      * unfold outcomes in *. rewrite Ft, Fd, Fn', Hc in *. rewrite Hd. simpl.
        destruct throws; lia.
Qed.

(** X2.  Whatever the fetcher answers and however late its answers come, a
    run shows no notification while the monitor polls, and once no timer is
    left, which is so after 123 timer events at the latest, it has shown
    exactly one notification for the outcome of the task, and a second one
    only when the completion callback has thrown. *)
Theorem one_notification_per_task
    (getProgressFunc : nat -> Settled) (throws : bool) (events : list Event) :
  let st := monitor (runEvents getProgressFunc (Fn throws) events) in
  (if taskCompleted st then (notificationCount st <= 2)%nat
   else notificationCount st = 0%nat)
  /\ (if idle st then notificationCount st = (if throws then 2%nat else 1%nat)
      else (timerEvents events < 123)%nat).
Proof.
  cbv zeta.
  assert (Hout : forall es,
             outcomes (if throws then 2%nat else 1%nat)
               (monitor (runEvents getProgressFunc (Fn throws) es))).
  { induction es as [| e es IH] using rev_ind; [reflexivity |].
    rewrite MonitorFacts.runEvents_snoc. apply step_outcomes; [| exact IH].
    apply MonitorFacts.runEvents_invariant. }
  destruct (MonitorFacts.runEvents_invariant getProgressFunc throws events)
    as [Hinv Hrem].
  specialize (Hout events).
  set (st := monitor (runEvents getProgressFunc (Fn throws) events)) in *.
  split.
  - unfold outcomes in Hout. destruct (taskCompleted st); [| exact Hout].
    destruct throws; lia.
  - destruct (idle st) eqn:Hidle.
    + pose proof (MonitorFacts.idle_running st Hinv Hidle) as Hc.
      unfold outcomes in Hout. rewrite Hc in Hout. unfold idle in Hidle.
      destruct (safetyTimeout st), (intervalId st), (delayed st); try discriminate.
      simpl in Hout. destruct throws; lia.
    + destruct Hrem as [Hi | Hle]; [congruence |].
      pose proof (MonitorFacts.remaining_positive st Hinv Hidle). lia.
Qed.

(** *** What a processed tick decides *)

Lemma isCompleted_tick getProgressFunc st p :
  processed getProgressFunc st = Some p ->
  taskCompleted (intervalCallback getProgressFunc st) = isCompleted p st.
Proof.
  intros Hp.
  assert (Hc : taskCompleted st = false).
  { unfold processed in Hp. destruct (taskCompleted st); [discriminate | reflexivity]. }
  rewrite (MonitorFacts.intervalCallback_processed _ _ _ Hp).
  unfold isCompleted, handleProgress. rewrite <- MonitorFacts.max_as_code.
  unfold reported. simpl lastProgressPercent.
  destruct (default 0 (p_progress p) <? lastProgressPercent st) eqn:Elt;
    cbv zeta beta iota; simpl lastProgressPercent; rewrite Z.eqb_refl;
    set (done := match p_status p with
                 | Some s => String.eqb s "completed"
                 | None => false
                 end);
    match goal with
    | |- context [(?d =? 100) && ?b] =>
        destruct (Z.eqb_spec d 100) as [E100 | N100];
        [ destruct b; cbv beta iota; simpl andb
        | simpl andb; cbv beta iota ]
    end;
    rewrite ?MonitorFacts.cleanupAndComplete_completed;
    try (rewrite E100; simpl; now rewrite orb_true_r);
    repeat match goal with
           | |- context [if ?b then _ else _] =>
               lazymatch b with
               | taskCompleted _ => fail
               | _ => destruct b eqn:?
               end
           end;
    rewrite ?MonitorFacts.cleanupAndComplete_completed; simpl; try rewrite Hc;
    try reflexivity; try congruence;
    rewrite E100; simpl; now rewrite orb_true_r.
Qed.

(** X3.  A tick that processes a progress report completes the monitor
    exactly when the report has status completed or the displayed percentage
    has reached 100; otherwise both timers stay as they are and nothing is
    scheduled, whatever the stagnation counter says. *)
Theorem processed_tick_completes_iff_done
    (getProgressFunc : nat -> Settled) (st : State) (p : Progress)
    (Hprocessed : processed getProgressFunc st = Some p) :
  let st' := intervalCallback getProgressFunc st in
  taskCompleted st' = isCompleted p st
  /\ (if isCompleted p st then intervalId st' = None /\ safetyTimeout st' = None
      else intervalId st' = intervalId st /\ safetyTimeout st' = safetyTimeout st
           /\ delayed st' = delayed st).
Proof.
  cbv zeta. pose proof (isCompleted_tick _ _ _ Hprocessed) as Hdone.
  split; [exact Hdone |].
  assert (Hc : taskCompleted st = false).
  { unfold processed in Hprocessed.
    destruct (taskCompleted st); [discriminate | reflexivity]. }
  destruct (MonitorFacts.intervalCallback_cases getProgressFunc st Hc)
    as [(Qt & Qs & Qi & Qd & _) | (Ft & Fs & Fi & _ & _)];
    destruct (isCompleted p st); try congruence; auto.
Qed.

Lemma processed_tick_completes_iff_done_witness :
  let getProgressFunc := reporting [40; 100] in
  taskCompleted (ticks getProgressFunc 1 monitorTaskProgress) = false
  /\ taskCompleted (ticks getProgressFunc 2 monitorTaskProgress) = true.
Proof.
  split.
  - apply (processed_tick_completes_iff_done (reporting [40; 100]) monitorTaskProgress
             (mkProgress None (Some 40) (Some "running") None None)).
    reflexivity.
  - vm_compute. reflexivity.
Defined.

(** X4.  When a processed report brings the displayed percentage to exactly
    100, the completion that is scheduled carries the report (with its
    [errors]) only if fewer than two reports were processed before; from the
    third processed report on the stagnation branch completes first, with no
    data, and the delayed closure then announces a plain success and calls
    back with an empty object. *)
Theorem completion_at_100_drops_report
    (getProgressFunc : nat -> Settled) (st : State) (p : Progress)
    (Hprocessed : processed getProgressFunc st = Some p)
    (Hfull : Z.max (lastProgressPercent st) (reported p) = 100) :
  delayed (intervalCallback getProgressFunc st)
  = delayed st
      ++ [(now st + 1000,
           if 2 <=? stagnantCount st
           then mkCompletion defaultMessage false None
           else mkCompletion (Js.orElse (p_message p) defaultMessage) false (Some p))]
  /\ stagnantCount (intervalCallback getProgressFunc st) = stagnantCount st + 1
  /\ trace (delayedCallback (Fn false) (mkCompletion defaultMessage false None) st)
     = trace st ++ [Monitor.HideProgressBar; ShowNotification "任务成功完成" success;
                    OnComplete emptyObject].
Proof.
  assert (Hc : taskCompleted st = false).
  { unfold processed in Hprocessed.
    destruct (taskCompleted st); [discriminate | reflexivity]. }
  split; [| split].
  - rewrite (MonitorFacts.intervalCallback_processed _ _ _ Hprocessed).
    rewrite <- MonitorFacts.max_as_code in Hfull. unfold reported in Hfull.
    unfold handleProgress. simpl lastProgressPercent.
    destruct (default 0 (p_progress p) <? lastProgressPercent st) eqn:Elt;
      cbv zeta beta iota; simpl lastProgressPercent; simpl stagnantCount;
      rewrite Z.eqb_refl, Hfull; cbv beta iota;
      change (100 =? 100) with true; change (100 <? 100) with false;
      change (100 <=? 100) with true; rewrite andb_false_r, orb_true_r; simpl andb;
      (destruct (Z.ltb_spec 2 (stagnantCount st + 1));
       destruct (Z.leb_spec 2 (stagnantCount st)); try lia);
      unfold cleanupAndComplete; simpl; rewrite Hc; reflexivity.
  - exact (MonitorFacts.stagnantCount_always_incremented _ _ _ Hprocessed).
  - unfold delayedCallback. simpl. now rewrite <- !List.app_assoc.
Qed.

Lemma completion_at_100_drops_report_witness :
  let failedInstall :=
    mkProgress None (Some 100) (Some "completed") (Some "done")
      (Some [ErrObject "torch" "build failed" None]) in
  let getProgressFunc := fun k : nat =>
    match k with
    | 0%nat | 1%nat =>
        Resolved (JsObject (mkProgress None (Some 50) (Some "running") None None))
    | _ => Resolved (JsObject failedInstall)
    end in
  List.map snd (delayed (ticks getProgressFunc 3 monitorTaskProgress))
  = [mkCompletion defaultMessage false None].
Proof.
  cbv zeta.
  pose proof (completion_at_100_drops_report
                (fun k : nat =>
                   match k with
                   | 0%nat | 1%nat =>
                       Resolved (JsObject (mkProgress None (Some 50) (Some "running") None None))
                   | _ =>
                       Resolved
                         (JsObject
                            (mkProgress None (Some 100) (Some "completed") (Some "done")
                               (Some [ErrObject "torch" "build failed" None])))
                   end)
                (ticks (fun k : nat =>
                          match k with
                          | 0%nat | 1%nat =>
                              Resolved
                                (JsObject (mkProgress None (Some 50) (Some "running") None None))
                          | _ =>
                              Resolved
                                (JsObject
                                   (mkProgress None (Some 100) (Some "completed") (Some "done")
                                      (Some [ErrObject "torch" "build failed" None])))
                          end) 2 monitorTaskProgress)
                (mkProgress None (Some 100) (Some "completed") (Some "done")
                   (Some [ErrObject "torch" "build failed" None]))
                eq_refl eq_refl) as [H _].
  vm_compute in H |- *. reflexivity.
Defined.

(** *** Rejected fetches *)




End MonitorRunFacts.

(** * Properties of selection, refresh and search on the page *)

Module PageFacts.
Import ListState Ranking Page.
Local Open Scope Z_scope.

Lemma selectAllItem_fold isChecked items done (sel : gset string) :
  List.fold_left (selectAllItem isChecked) items (done, sel)
  = (done ++ List.map (selectedAll isChecked) items,
     if isChecked then sel ∪ list_to_set (selectableNames items)
     else sel ∖ list_to_set (selectableNames items)).
Proof.
  revert done sel. induction items as [| it items IH]; intros done sel.
  - simpl. rewrite List.app_nil_r. unfold selectableNames. simpl.
    destruct isChecked; f_equal; [now rewrite union_empty_r_L | now rewrite difference_empty_L].
  - simpl List.fold_left.
    assert (Hnames : selectableNames (it :: items)
                     = if selectable it && negb (String.eqb (data_name it) "")
                       then data_name it :: selectableNames items
                       else selectableNames items).
    { unfold selectableNames. simpl List.filter.
      destruct (selectable it); simpl; [| reflexivity].
      destruct (String.eqb (data_name it) ""); reflexivity. }
    rewrite Hnames. simpl List.map. unfold selectedAll at 1.
    destruct (selectable it); simpl andb.
    + destruct isChecked; rewrite IH, <- List.app_assoc; simpl; f_equal;
        destruct (String.eqb (data_name it) ""); simpl; try reflexivity.
      * case_bool_decide as Hin; simpl.
        -- rewrite union_assoc_L. f_equal. rewrite (union_comm_L sel).
           symmetry. apply subseteq_union_1_L. now apply singleton_subseteq_l.
        -- rewrite !union_assoc_L. f_equal. apply union_comm_L.
      * now rewrite difference_difference_l_L.
    + rewrite IH, <- List.app_assoc. reflexivity.
Qed.

Lemma handleSelectAll_result isChecked st :
  listElement (handleSelectAll isChecked st)
  = (fun items => List.map (selectedAll isChecked) items) <$> listElement st
  /\ selectedDependencies (handleSelectAll isChecked st)
     = if isChecked
       then selectedDependencies st
              ∪ list_to_set (selectableNames (default [] (listElement st)))
       else selectedDependencies st
              ∖ list_to_set (selectableNames (default [] (listElement st))).
Proof.
  unfold handleSelectAll. rewrite selectAllItem_fold. simpl.
  split; [| reflexivity]. destruct (listElement st); reflexivity.
Qed.

Lemma elem_of_selectableNames n items :
  n ∈ selectableNames items
  <-> n <> "" /\ exists it, it ∈ items /\ selectable it = true /\ data_name it = n.
Proof.
  unfold selectableNames. rewrite list_elem_of_In, List.filter_In, List.in_map_iff.
  split.
  - intros [(it & <- & Hin) Hne]. apply List.filter_In in Hin as [Hin Hs].
    split; [now apply String.eqb_neq, negb_true_iff |].
    exists it. rewrite list_elem_of_In. auto.
  - intros [Hne (it & Hin & Hs & <-)]. split.
    + exists it. split; [reflexivity |]. apply List.filter_In.
      rewrite <- list_elem_of_In. auto.
    + now apply negb_true_iff, String.eqb_neq.
Qed.

(** X6.  Select-all adds to the selection exactly the non-empty names of the
    items that are neither system nor required by the application and are not
    hidden, and removes exactly those when unchecked; every other item keeps
    its selected class, and no item changes its name, classes or display. *)
Theorem handleSelectAll_selects_visible_unprotected (isChecked : bool) (st : Store) :
  let items := default [] (listElement st) in
  let st' := handleSelectAll isChecked st in
  (forall n,
      n ∈ selectedDependencies st'
      <-> if isChecked
          then n ∈ selectedDependencies st
               \/ (n <> "" /\ exists it, it ∈ items /\ selectable it = true /\ data_name it = n)
          else n ∈ selectedDependencies st
               /\ ~ (n <> "" /\ exists it, it ∈ items /\ selectable it = true
                                   /\ data_name it = n))
  /\ Forall2 (fun it it' =>
                it' = (if selectable it then set_selected isChecked it else it))
       items (default [] (listElement st'))
  /\ allDependencies st' = allDependencies st.
Proof.
  cbv zeta. destruct (handleSelectAll_result isChecked st) as [Hitems Hsel].
  split; [| split].
  - intros n. rewrite Hsel. destruct isChecked.
    + rewrite elem_of_union, elem_of_list_to_set, elem_of_selectableNames. reflexivity.
    + rewrite elem_of_difference, elem_of_list_to_set, elem_of_selectableNames. reflexivity.
  - rewrite Hitems. clear Hitems Hsel.
    destruct (listElement st) as [items |]; simpl; [| constructor].
    induction items as [| it items IH]; simpl;
      [constructor | constructor; [reflexivity | exact IH]].
  - unfold handleSelectAll. now rewrite selectAllItem_fold.
Qed.

(** Items with distinct names are told apart by their names. *)
Lemma same_name_same_item (items : list Item) a b :
  NoDup (List.map data_name items) -> a ∈ items -> b ∈ items ->
  data_name a = data_name b -> a = b.
Proof.
  induction items as [| x l IH]; simpl; intros Hnd Ha Hb Hab.
  - inversion Ha.
  - apply NoDup_cons in Hnd as [Hx Hnd].
    apply elem_of_cons in Ha as [-> | Ha]; apply elem_of_cons in Hb as [-> | Hb].
    + reflexivity.
    + exfalso. apply Hx. rewrite Hab. apply list_elem_of_In, List.in_map.
      now apply list_elem_of_In.
    + exfalso. apply Hx. rewrite <- Hab. apply list_elem_of_In, List.in_map.
      now apply list_elem_of_In.
    + now apply IH.
Qed.

Lemma elem_of_deselected filterType n items :
  n ∈ deselected filterType items
  <-> exists it, it ∈ items /\ data_name it = n /\ shouldShow filterType it = false
                 /\ cls_selected it = true /\ n <> "".
Proof.
  unfold deselected. rewrite list_elem_of_In, List.in_map_iff. split.
  - intros (it & <- & Hin). apply List.filter_In in Hin as [Hin Hc].
    apply andb_true_iff in Hc as [Hc Hne]. apply andb_true_iff in Hc as [Hshow Hsel].
    exists it. rewrite list_elem_of_In. repeat split; auto.
    + now apply negb_true_iff.
    + now apply String.eqb_neq, negb_true_iff.
  - intros (it & Hin & <- & Hshow & Hsel & Hne). exists it. split; [reflexivity |].
    apply List.filter_In. rewrite <- list_elem_of_In. split; [exact Hin |].
    rewrite Hshow, Hsel. simpl. now apply negb_true_iff, String.eqb_neq.
Qed.

(** X7.  On a page whose items have distinct, non-empty names, filtering and
    select-all keep the selected class of every item equal to the membership
    of its name in the selection set, and so does clearing the selection on
    any page. *)
Theorem selection_mirror_is_kept
    (filterType : string) (isChecked : bool) (st : Store) (items : list Item)
    (Hpage : listElement st = Some items)
    (Hsync : inSync items (selectedDependencies st))
    (Hdistinct : NoDup (List.map data_name items))
    (Hnames : Forall (fun it => data_name it <> "") items) :
  inSync (default [] (listElement (filterDependencies filterType st)))
    (selectedDependencies (filterDependencies filterType st))
  /\ inSync (default [] (listElement (handleSelectAll isChecked st)))
       (selectedDependencies (handleSelectAll isChecked st))
  /\ inSync (default [] (listElement (clearSelection st)))
       (selectedDependencies (clearSelection st)).
Proof.
  assert (Hs : forall it, it ∈ items ->
                 cls_selected it = bool_decide (data_name it ∈ selectedDependencies st)).
  { intros it Hin. exact (proj1 (Forall_forall _ _) Hsync it Hin). }
  assert (Hn : forall it, it ∈ items -> data_name it <> "").
  { intros it Hin. exact (proj1 (Forall_forall _ _) Hnames it Hin). }
  split; [| split].
  - destruct (ListStateFacts.filterDependencies_result filterType st items Hpage)
      as [-> ->].
    simpl. unfold inSync. apply Forall_forall. intros it' Hin.
    apply list_elem_of_In, List.in_map_iff in Hin as (it & <- & Hin).
    apply list_elem_of_In in Hin. specialize (Hs it Hin). specialize (Hn it Hin).
    assert (Hname : data_name (filtered filterType it) = data_name it).
    { unfold filtered. destruct (shouldShow _ _); [| destruct (_ && _)]; reflexivity. }
    rewrite Hname. symmetry. unfold filtered.
    destruct (shouldShow filterType it) eqn:Eshow; simpl.
    + rewrite Hs. apply bool_decide_ext. rewrite elem_of_difference, elem_of_list_to_set.
      split; [tauto |]. intros Hmem. split; [exact Hmem |].
      rewrite elem_of_deselected. intros (it2 & Hin2 & Hsame & Hhide & _).
      assert (it2 = it) by (now apply (same_name_same_item items)). subst it2. congruence.
    + apply String.eqb_neq in Hn as Hne. rewrite Hne. simpl. rewrite andb_true_r.
      destruct (cls_selected it) eqn:Esel; simpl.
      * apply bool_decide_eq_false. rewrite elem_of_difference, elem_of_list_to_set.
        intros [_ Hnot]. apply Hnot. apply elem_of_deselected. exists it. auto.
      * rewrite Esel. apply bool_decide_eq_false. rewrite elem_of_difference.
        intros [Hmem _]. symmetry in Hs. apply bool_decide_eq_false in Hs. contradiction.
  - destruct (handleSelectAll_result isChecked st) as [-> ->]. rewrite Hpage. simpl.
    unfold inSync. apply Forall_forall. intros it' Hin.
    apply list_elem_of_In, List.in_map_iff in Hin as (it & <- & Hin).
    apply list_elem_of_In in Hin. specialize (Hs it Hin). specialize (Hn it Hin).
    assert (Hname : data_name (selectedAll isChecked it) = data_name it).
    { unfold selectedAll. destruct (selectable it); reflexivity. }
    rewrite Hname. symmetry.
    assert (Hmine : data_name it ∈ selectableNames items <-> selectable it = true).
    { rewrite elem_of_selectableNames. split.
      - intros (_ & it2 & Hin2 & Hsel2 & Hsame).
        assert (it2 = it) by (now apply (same_name_same_item items)). now subst it2.
      - intros Hsel. split; [exact Hn |]. exists it. auto. }
    unfold selectedAll. destruct (selectable it) eqn:Esel; simpl; destruct isChecked.
    + apply bool_decide_eq_true. rewrite elem_of_union, elem_of_list_to_set. tauto.
    + apply bool_decide_eq_false. rewrite elem_of_difference, elem_of_list_to_set. tauto.
    + rewrite Hs. apply bool_decide_ext. rewrite elem_of_union, elem_of_list_to_set.
      split; [| tauto]. intros [H | H]; [exact H |]. apply Hmine in H. discriminate.
    + rewrite Hs. apply bool_decide_ext. rewrite elem_of_difference, elem_of_list_to_set.
      split; [tauto |]. intros H. split; [exact H |]. intros H'. apply Hmine in H'.
      discriminate.
  - unfold clearSelection. rewrite Hpage. simpl. unfold inSync. apply Forall_forall.
    intros it' Hin. apply list_elem_of_In, List.in_map_iff in Hin as (it & <- & _).
    simpl. symmetry. apply bool_decide_eq_false. apply not_elem_of_empty.
Qed.

Lemma selection_mirror_is_kept_witness :
  let st := mkStore [] {["numpy"]} (Some [pipItem; numpyItem]) [] true in
  inSync (default [] (listElement (filterDependencies "system" st)))
    (selectedDependencies (filterDependencies "system" st)).
Proof.
  apply (selection_mirror_is_kept "system" true
           (mkStore [] {["numpy"]} (Some [pipItem; numpyItem]) [] true)
           [pipItem; numpyItem]).
  - reflexivity.
  - repeat constructor.
  - apply (bool_decide_unpack _). vm_compute. exact I.
  - repeat constructor; discriminate.
Defined.

(** *** Filtering twice *)

Lemma filterDependencies_unfold filterType st :
  filterDependencies filterType st
  = mkStore (allDependencies st)
      (selectedDependencies st
         ∖ list_to_set (deselected filterType (default [] (listElement st))))
      ((fun items => List.map (filtered filterType) items) <$> listElement st)
      (originalOrder st) false.
Proof.
  unfold filterDependencies. rewrite ListStateFacts.filterItem_fold. simpl.
  destruct (listElement st); reflexivity.
Qed.

Lemma filtered_twice filterType it :
  filtered filterType (filtered filterType it) = filtered filterType it
  /\ negb (shouldShow filterType (filtered filterType it))
     && cls_selected (filtered filterType it)
     && negb (String.eqb (data_name (filtered filterType it)) "") = false.
Proof.
  unfold filtered.
  destruct (shouldShow filterType it) eqn:Eshow.
  - assert (shouldShow filterType (set_display DisplayFlex it) = true) as Hs by exact Eshow.
    rewrite Hs. split; reflexivity.
  - destruct (cls_selected it && negb (String.eqb (data_name it) "")) eqn:Esel.
    + assert (shouldShow filterType (set_selected false (set_display DisplayNone it)) = false)
        as Hs by exact Eshow.
      rewrite Hs. split; reflexivity.
    + assert (shouldShow filterType (set_display DisplayNone it) = false) as Hs
        by exact Eshow.
      rewrite Hs. simpl. rewrite Esel. split; reflexivity.
Qed.

Lemma deselected_filtered filterType items :
  deselected filterType (List.map (filtered filterType) items) = [].
Proof.
  unfold deselected. induction items as [| it items IH]; [reflexivity |].
  simpl. destruct (filtered_twice filterType it) as [_ ->]. exact IH.
Qed.

(** X8.  Applying the same filter a second time changes nothing, neither an
    item nor the selection; and showing all entries again after a filter
    does not bring back what the filter deselected. *)
Theorem filterDependencies_idempotent (filterType : string) (st : Store) :
  filterDependencies filterType (filterDependencies filterType st)
  = filterDependencies filterType st
  /\ selectedDependencies (filterDependencies "all" (filterDependencies filterType st))
     = selectedDependencies (filterDependencies filterType st).
Proof.
  split.
  - rewrite (filterDependencies_unfold filterType (filterDependencies filterType st)).
    rewrite (filterDependencies_unfold filterType st). simpl.
    destruct (listElement st) as [items |]; simpl.
    + rewrite deselected_filtered, list_to_set_nil, difference_empty_L. f_equal. f_equal.
      rewrite List.map_map. apply List.map_ext. intros it.
      apply (filtered_twice filterType it).
    + now rewrite difference_empty_L.
  - rewrite (filterDependencies_unfold "all"). simpl.
    now rewrite ListStateFacts.deselected_all, list_to_set_nil, difference_empty_L.
Qed.

(** *** Rendering the stored list again *)

Lemma sort_sorted_id {A : Type} (cmp : A -> A -> Z) (l : list A) :
  StronglySorted (fun a b => cmp a b <= 0) l -> Js.sort cmp l = l.
Proof.
  induction 1 as [| x l Hs IH Hall]; [reflexivity |].
  simpl. rewrite IH. destruct l as [| y l]; [reflexivity |].
  simpl. apply Forall_cons in Hall as [Hxy _].
  destruct (Z.leb_spec (cmp x y) 0); [reflexivity | lia].
Qed.

(** X9.  With a [localeCompare] that is a total preorder, rendering the list
    that a rendering has stored gives the same page again: the stored order
    is a fixed point of the sort. *)
Theorem renderDependencyList_twice
    (localeCompare : string -> string -> Z)
    (Hantisymmetric : forall a b, Z.sgn (localeCompare b a) = - Z.sgn (localeCompare a b))
    (Htransitive : forall a b c, localeCompare a b <= 0 -> localeCompare b c <= 0 ->
                                 localeCompare a c <= 0)
    (dependencies : list Entry) (st : Store) :
  let st' := renderDependencyList localeCompare dependencies st in
  renderDependencyList localeCompare (allDependencies st') st' = st'.
Proof.
  cbv zeta. unfold renderDependencyList.
  destruct (listElement st) as [items |]; [| reflexivity].
  destruct dependencies as [| d ds]; [reflexivity |].
  change (List.length (d :: ds) =? 0)%nat with false. cbv iota.
  set (sorted := Js.sort (compareDependencies localeCompare) (d :: ds)).
  cbn [listElement allDependencies selectedDependencies originalOrder selectAll].
  assert (Hlen : (List.length sorted =? 0)%nat = false).
  { apply Nat.eqb_neq. unfold sorted.
    rewrite (Permutation_length (SortFacts.sort_Permutation _ (d :: ds))). discriminate. }
  rewrite Hlen.
  rewrite (sort_sorted_id (compareDependencies localeCompare) sorted); [reflexivity |].
  apply SortFacts.sort_sorted.
  - apply ListStateFacts.compareDependencies_total. exact Hantisymmetric.
  - apply ListStateFacts.compareDependencies_trans. exact Htransitive.
Qed.

Lemma renderDependencyList_twice_witness :
  let st' := renderDependencyList Js.compareCodeUnits [torch; numpy; flask; pip] page in
  renderDependencyList Js.compareCodeUnits (allDependencies st') st' = st'.
Proof.
  apply (renderDependencyList_twice Js.compareCodeUnits
           ListStateFacts.compareCodeUnits_antisymmetric
           ListStateFacts.compareCodeUnits_transitive).
Defined.

(** *** Refreshing after a batch operation *)

Lemma render_selection localeCompare dependencies st :
  selectedDependencies (renderDependencyList localeCompare dependencies st)
  = selectedDependencies st
  /\ inSync (default [] (listElement (renderDependencyList localeCompare dependencies st)))
       (selectedDependencies st).
Proof.
  unfold renderDependencyList.
  destruct (listElement st) as [items |]; simpl.
  - destruct (List.length dependencies =? 0)%nat; simpl.
    + split; [reflexivity | constructor].
    + split; [reflexivity | apply ListStateFacts.renderItem_inSync].
  - split; [reflexivity | constructor].
Qed.

(** X10.  When a batch uninstall has completed, the selection is empty, the
    batch buttons are disabled and no rendered item is selected, whether the
    list could be loaded or not; when it could not, the page shows no entry
    while the stored list is still the old one.  After an update of the
    selected packages the selection is what it was. *)
Theorem batchUninstallCompleted_clears_selection
    (localeCompare : string -> string -> Z) (loaded : option (list Entry)) (st : Store) :
  let st' := batchUninstallCompleted localeCompare loaded st in
  selectedDependencies st' = ∅
  /\ getSelectedDependencies st' = []
  /\ batchButtonsDisabled st' = true
  /\ Forall (fun it => cls_selected it = false) (default [] (listElement st'))
  /\ default [] (listElement (batchUninstallCompleted localeCompare None st)) = []
  /\ allDependencies (batchUninstallCompleted localeCompare None st) = allDependencies st
  /\ selectedDependencies (updateSelectedCompleted localeCompare loaded st)
     = selectedDependencies st.
Proof.
  cbv zeta.
  assert (Hsel : selectedDependencies (batchUninstallCompleted localeCompare loaded st) = ∅).
  { unfold batchUninstallCompleted, refreshDependencies. destruct loaded; simpl;
      [| reflexivity].
    now destruct (render_selection localeCompare l
                    (showLoadingMessage (clearSelection st))) as [-> _]. }
  split; [exact Hsel |]. split; [| split; [| split; [| split; [| split]]]].
  - unfold getSelectedDependencies. rewrite Hsel. apply elements_empty.
  - unfold batchButtonsDisabled. rewrite Hsel. reflexivity.
  - unfold batchUninstallCompleted, refreshDependencies. destruct loaded as [deps |]; simpl.
    + destruct (render_selection localeCompare deps
                  (showLoadingMessage (clearSelection st))) as [_ Hsync].
      simpl in Hsync. unfold inSync in Hsync.
      eapply Forall_impl; [exact Hsync |]. simpl. intros it ->.
      apply bool_decide_eq_false. apply not_elem_of_empty.
    + destruct (listElement st); simpl; constructor.
  - unfold batchUninstallCompleted. simpl. destruct (listElement st); reflexivity.
  - reflexivity.
  - unfold updateSelectedCompleted, refreshDependencies. destruct loaded as [deps |];
      [| reflexivity].
    simpl. now destruct (render_selection localeCompare deps (showLoadingMessage st))
                 as [-> _].
Qed.

(** *** Search and its saved order *)

(** X11.  On a page with entries and no saved order yet, a search saves the
    items as they are; clearing the query puts exactly those items back, and
    it still puts those items back when the list has been replaced in
    between, whatever the new list holds. *)
Theorem clearing_the_search_restores_the_saved_items
    (localeCompare : string -> string -> Z) (query : string)
    (dependencies : list Entry) (st : Store) (items : list Item)
    (Hpage : listElement st = Some items)
    (Hentries : items <> [])
    (Hfresh : originalOrder st = []) :
  originalOrder (searchDependencies query st) = items
  /\ listElement (searchDependencies "" (searchDependencies query st)) = Some items
  /\ listElement
       (searchDependencies ""
          (renderDependencyList localeCompare dependencies (searchDependencies query st)))
     = Some items.
Proof.
  assert (Hlen : (List.length items =? 0)%nat = false).
  { destruct items; [contradiction | reflexivity]. }
  assert (Hsearch : originalOrder (searchDependencies query st) = items
                    /\ is_Some (listElement (searchDependencies query st))).
  { unfold searchDependencies. rewrite Hpage, Hfresh. simpl.
    destruct (String.eqb query ""); simpl.
    - unfold resetDependencyOrder. simpl. rewrite Hlen. simpl. split; [reflexivity | eauto].
    - split; [reflexivity | eauto]. }
  destruct Hsearch as [Horig [shown Hshown]].
  assert (Hreset : forall s shown', originalOrder s = items -> listElement s = Some shown' ->
                     listElement (searchDependencies "" s) = Some items).
  { intros s shown' Ho Hl. unfold searchDependencies. rewrite Hl, Ho, Hlen. simpl.
    unfold resetDependencyOrder. simpl. now rewrite Hlen. }
  split; [exact Horig |]. split.
  - eapply Hreset; eauto.
  - set (s := searchDependencies query st) in *.
    assert (Hr : originalOrder (renderDependencyList localeCompare dependencies s) = items
                 /\ is_Some (listElement (renderDependencyList localeCompare dependencies s))).
    { unfold renderDependencyList. rewrite Hshown.
      destruct (List.length dependencies =? 0)%nat; simpl; split; eauto. }
    destruct Hr as [Ho [shown' Hl]]. eapply Hreset; eauto.
Qed.

Lemma clearing_the_search_restores_the_saved_items_witness :
  let st := mkStore [] ∅ (Some [pipItem; numpyItem]) [] false in
  listElement
    (searchDependencies ""
       (renderDependencyList Js.compareCodeUnits [torch] (searchDependencies "num" st)))
  = Some [pipItem; numpyItem].
Proof.
  apply (clearing_the_search_restores_the_saved_items Js.compareCodeUnits "num" [torch]
           (mkStore [] ∅ (Some [pipItem; numpyItem]) [] false) [pipItem; numpyItem]).
  - reflexivity.
  - discriminate.
  - reflexivity.
Defined.

(** *** Filtering after a search *)

(** C8.  The page shows "pip", a system package, and "numpy", nothing is
    selected and every item mirrors the selection set.  The user searches
    for "num", ticks select-all, clears the search and picks the filter
    "system".  Select-all puts "numpy" into the selection set and marks the
    item shown; clearing the search puts back copies of the items saved
    before the search, on which "numpy" is not marked; the filter, which
    reads the mark of the item and not the set, hides "numpy" and leaves it
    in the selection set. *)
Theorem filter_after_search_keeps_hidden_selection :
  let st0 := renderDependencyList Js.compareCodeUnits [numpy; pip] page in
  let st1 := searchDependencies "num" st0 in
  let st2 := handleSelectAll true st1 in
  let st3 := searchDependencies "" st2 in
  let st4 := filterDependencies "system" st3 in
  let view := fun st : Store =>
    List.map (fun it => (data_name it, display it, cls_selected it))
      (default [] (listElement st)) in
  (view st0 = [("pip", DisplayDefault, false); ("numpy", DisplayDefault, false)]
   /\ elements (selectedDependencies st0) = [])
  /\ (view st2 = [("numpy", DisplayDefault, true); ("pip", DisplayDefault, false)]
      /\ elements (selectedDependencies st2) = ["numpy"])
  /\ (view st3 = [("pip", DisplayDefault, false); ("numpy", DisplayDefault, false)]
      /\ elements (selectedDependencies st3) = ["numpy"])
  /\ (view st4 = [("pip", DisplayFlex, false); ("numpy", DisplayNone, false)]
      /\ elements (selectedDependencies st4) = ["numpy"]).
Proof. vm_compute. repeat split; reflexivity. Qed.

End PageFacts.

(** * More properties of the search ranking *)

Module RankingOrderFacts.
Import ListState Ranking.
Local Open Scope Z_scope.

Lemma rank_sorted query items :
  StronglySorted (fun a b => score query b - score query a <= 0) (rank query items).
Proof.
  rewrite RankingFacts.rank_sort.
  apply (SortFacts.sort_sorted (fun a b => score query b - score query a)); intros; lia.
Qed.

Lemma rank_twice query items : rank query (rank query items) = rank query items.
Proof.
  rewrite (RankingFacts.rank_sort query (rank query items)).
  apply PageFacts.sort_sorted_id. apply rank_sorted.
Qed.

(** X12.  Searching again for the same non-empty query changes nothing on the
    page: the ranking of an already ranked list is that list, and the saved
    order stays as it is. *)
Theorem searchDependencies_same_query_twice (query : string) (st : Store)
    (Hquery : query <> "") :
  searchDependencies query (searchDependencies query st) = searchDependencies query st
  /\ forall items, rank query (rank query items) = rank query items.
Proof.
  split; [| intros items; apply rank_twice].
  apply String.eqb_neq in Hquery. unfold searchDependencies.
  destruct (listElement st) as [items |] eqn:Hitems; [| now rewrite Hitems].
  rewrite Hquery. simpl. rewrite ?Hquery, rank_twice.
  destruct (List.length (originalOrder st) =? 0)%nat eqn:Horig.
  - destruct items as [| it items]; [reflexivity |]. reflexivity.
  - rewrite Horig. reflexivity.
Qed.

Lemma searchDependencies_same_query_twice_witness :
  let st := mkStore [] ∅ (Some (List.map item ["pandas"; "numexpr"; "numpy"])) [] false in
  searchDependencies "num" (searchDependencies "num" st) = searchDependencies "num" st.
Proof.
  apply (searchDependencies_same_query_twice "num"
           (mkStore [] ∅ (Some (List.map item ["pandas"; "numexpr"; "numpy"])) [] false)).
  discriminate.
Defined.

Lemma indexOf_zero_startsWith k q : indexOf k q = Some 0%nat -> startsWith k q = true.
Proof.
  unfold indexOf, startsWith. intros H. apply String.index_correct1 in H.
  now apply String.prefix_correct.
Qed.

(** The score of a match that is not a prefix stays below 1000, that of an
    entry without a match is 0. *)
Lemma score_not_prefix query it :
  query <> "" ->
  startsWith (toLowerCase (data_name it)) (toLowerCase query) = false ->
  score query it <= 999.
Proof.
  intros Hq Hp. rewrite (RankingFacts.score_formula query it Hq). cbv zeta. rewrite Hp.
  destruct (indexOf _ _) as [[| i] |] eqn:Hi; unfold len; try lia.
  apply indexOf_zero_startsWith in Hi. congruence.
Qed.

Lemma score_prefix query it :
  query <> "" ->
  startsWith (toLowerCase (data_name it)) (toLowerCase query) = true ->
  2000 - len (data_name it) <= score query it <= 2500 - len (data_name it).
Proof.
  intros Hq Hp. rewrite (RankingFacts.score_formula query it Hq). cbv zeta. rewrite Hp.
  unfold len. rewrite !RankingFacts.toLowerCase_length. destruct (_ <? 3); lia.
Qed.

(** X13.  For a non-empty query, an entry whose key starts with the query and
    has at most 1000 characters scores above every entry whose key does not
    start with it, so that in the ranking no such entry comes after an entry
    that is not a prefix match. *)
Theorem prefix_matches_rank_first (query : string) (items : list Item)
    (Hquery : query <> "") :
  let isPrefix := fun it =>
    startsWith (toLowerCase (data_name it)) (toLowerCase query) in
  (forall a b, isPrefix a = true -> len (data_name a) <= 1000 -> isPrefix b = false ->
               score query b < score query a)
  /\ (forall before b after,
         rank query items = before ++ b :: after -> isPrefix b = false ->
         Forall (fun a => isPrefix a = false \/ 1000 < len (data_name a)) after).
Proof.
  cbv zeta.
  assert (Hlt : forall a b,
             startsWith (toLowerCase (data_name a)) (toLowerCase query) = true ->
             len (data_name a) <= 1000 ->
             startsWith (toLowerCase (data_name b)) (toLowerCase query) = false ->
             score query b < score query a).
  { intros a b Ha Hlen Hb.
    pose proof (score_prefix query a Hquery Ha).
    pose proof (score_not_prefix query b Hquery Hb). lia. }
  split; [exact Hlt |].
  intros before b after Hout Hb.
  pose proof (rank_sorted query items) as Hsorted. rewrite Hout in Hsorted.
  apply StronglySorted_app_1_r in Hsorted.
  apply StronglySorted_inv in Hsorted as [_ Hall].
  eapply Forall_impl; [exact Hall |]. simpl. intros a Hab.
  destruct (startsWith (toLowerCase (data_name a)) (toLowerCase query)) eqn:Ha;
    [| now left].
  right. destruct (Z.le_gt_cases (len (data_name a)) 1000) as [Hle | Hgt]; [| lia].
  specialize (Hlt a b Ha Hle Hb). lia.
Qed.

Lemma prefix_matches_rank_first_witness :
  score "py" (item "numpy") < score "py" (item "pytest").
Proof.
  assert (Hquery : "py" <> "") by discriminate.
  destruct (prefix_matches_rank_first "py" [] Hquery) as [Hlt _].
  apply Hlt.
  - reflexivity.
  - vm_compute. discriminate.
  - reflexivity.
Defined.

Lemma prefix_refl s : String.prefix s s = true.
Proof.
  induction s as [| c s IH]; [reflexivity |]. simpl.
  destruct (ascii_dec c c); [exact IH | contradiction].
Qed.

Lemma substring_all s : String.substring 0 (String.length s) s = s.
Proof. induction s as [| c s IH]; simpl; [reflexivity | now rewrite IH]. Qed.

(** A proper prefix is shorter. *)
Lemma prefix_shorter q k :
  String.prefix q k = true -> k <> q -> (String.length q < String.length k)%nat.
Proof.
  intros Hp Hne. apply String.prefix_correct in Hp.
  pose proof (f_equal String.length Hp) as Hlen.
  rewrite RankingFacts.substring_length in Hlen.
  destruct (Nat.eq_dec (String.length q) (String.length k)) as [E | E]; [| lia].
  exfalso. apply Hne. rewrite E, substring_all in Hp. exact Hp.
Qed.

(** X14.  For a non-empty query of fewer than 1500 characters, an entry whose
    key is the query itself, letter case aside, scores above every entry with
    another key; in the ranking only entries with that same key can stand
    before it. *)
Theorem exact_match_ranks_first (query : string) (items : list Item) (a : Item)
    (Hquery : query <> "")
    (Hshort : len query < 1500)
    (Hexact : toLowerCase (data_name a) = toLowerCase query) :
  score query a = 2500 - len query
  /\ (forall b, toLowerCase (data_name b) <> toLowerCase query ->
                score query b < score query a)
  /\ (forall before after,
         rank query items = before ++ a :: after ->
         Forall (fun b => toLowerCase (data_name b) = toLowerCase query) before).
Proof.
  assert (Hlenq : len (toLowerCase query) = len query).
  { unfold len. now rewrite RankingFacts.toLowerCase_length. }
  assert (Ha : score query a = 2500 - len query).
  { rewrite (RankingFacts.score_formula query a Hquery). cbv zeta. rewrite Hexact.
    unfold startsWith. rewrite prefix_refl.
    replace (len (toLowerCase query) - len (toLowerCase query)) with 0 by lia.
    change (0 <? 3) with true. cbv iota. lia. }
  assert (Hb : forall b, toLowerCase (data_name b) <> toLowerCase query ->
                 score query b < score query a).
  { intros b Hne. rewrite Ha.
    destruct (startsWith (toLowerCase (data_name b)) (toLowerCase query)) eqn:Hp.
    - pose proof (score_prefix query b Hquery Hp) as Hs.
      pose proof (prefix_shorter _ _ Hp Hne) as Hlen.
      rewrite !RankingFacts.toLowerCase_length in Hlen. unfold len in *. lia.
    - pose proof (score_not_prefix query b Hquery Hp). lia. }
  split; [exact Ha |]. split; [exact Hb |].
  intros before after Hout.
  pose proof (rank_sorted query items) as Hsorted. rewrite Hout in Hsorted.
  apply Forall_forall. intros b Hin.
  destruct (string_dec (toLowerCase (data_name b)) (toLowerCase query)) as [E | N];
    [exact E |].
  exfalso. specialize (Hb b N).
  assert (score query a - score query b <= 0); [| lia].
  apply (StronglySorted_app_1_elem_of _ _ _ b a Hsorted Hin). now left.
Qed.

Lemma exact_match_ranks_first_witness :
  score "numpy" (item "NumPy") = 2495
  /\ score "numpy" (item "numpy-financial") < score "numpy" (item "NumPy").
Proof.
  split.
  - apply (exact_match_ranks_first "numpy" [] (item "NumPy")).
    + discriminate.
    + reflexivity.
    + reflexivity.
  - apply (exact_match_ranks_first "numpy" [] (item "NumPy")).
    + discriminate.
    + reflexivity.
    + reflexivity.
    + discriminate.
Defined.

End RankingOrderFacts.

(** * More properties of the refresh after a mutation *)

Module TaskFacts.
Import ListState Sync Tasks.

(** X15.  When a version switch has completed, the callback fetches the
    entry once and then refreshes the list in exactly one way: it replaces the
    one item when the entry was fetched and the item could be replaced, and
    reloads the whole list in every other case. *)
Theorem switchVersion_refreshes_exactly_once
    (packageName version : string) (fetched : SingleFetch) (upsertThrows : bool) :
  let acts := switchVersionCompleted packageName version fetched upsertThrows in
  List.filter isTargetedFetch acts = [GetSingleDependency packageName true]
  /\ (List.length (List.filter isUpsert acts)
      + List.length (List.filter isFullReload acts) = 1)%nat
  /\ List.filter isUpsert acts
     = match fetched with
       | FetchEntry e => if upsertThrows then [] else [UpdateDependencyItem e]
       | _ => []
       end.
Proof.
  destruct fetched as [ | | e]; [| | destruct upsertThrows]; repeat split; reflexivity.
Qed.

(** X16.  Whether the API call rejects or resolves to a response,
    [handleTaskWithProgress] shows the progress bar first and then either
    starts exactly one monitor and leaves the bar to it, or hides the bar
    exactly once and starts none; it resolves to true exactly when the call
    resolved with [success], and otherwise shows one error notification and
    refreshes nothing. *)
Theorem handleTaskWithProgress_outcomes
    (title : string) (apiCall : ApiCall) (refreshList : bool) :
  let '(result, acts) := handleTaskWithProgress title apiCall refreshList in
  head acts = Some (ShowProgressBar title)
  /\ (List.length (List.filter isMonitor acts) + List.length (List.filter isHide acts)
      = 1)%nat
  /\ result = match apiCall with ApiResolved true _ _ => true | _ => false end
  /\ (if result then List.filter isErrorNotice acts = []
      else List.length (List.filter isErrorNotice acts) = 1%nat
           /\ List.filter isRefresh acts = [] /\ List.filter isMonitor acts = []).
Proof.
  destruct apiCall as [message [[| c m] |] | [|] taskId message]; simpl;
    try (repeat split; reflexivity).
  destruct (Js.truthy taskId); destruct refreshList; simpl; repeat split; reflexivity.
Qed.


End TaskFacts.

(** * Properties of the version strings *)

Module VersionsFacts.
Import Versions.
Local Open Scope Z_scope.

(** ** The comparison of two versions *)

Lemma numEq_refl a : numEq a a = true.
Proof. destruct a; simpl; [apply Z.eqb_refl | reflexivity]. Qed.

Lemma numEq_eq a b : numEq a b = true -> a = b.
Proof.
  destruct a, b; simpl; try discriminate; [| reflexivity].
  intros H. apply Z.eqb_eq in H. now subst.
Qed.

Lemma string_compare_refl s : String.compare s s = Eq.
Proof.
  induction s as [| c s IH]; simpl; [reflexivity |].
  now rewrite ListStateFacts.ascii_compare_refl.
Qed.

Lemma comparePart_refl p : comparePart p p = None.
Proof.
  destruct p; simpl; [now rewrite numEq_refl | now rewrite string_compare_refl].
Qed.

Lemma comparePart_None p q : comparePart p q = None -> p = q.
Proof.
  destruct p as [a | a], q as [b | b]; simpl; try discriminate.
  - destruct (numEq a b) eqn:E; [| discriminate]. intros _. f_equal. now apply numEq_eq.
  - destruct (String.compare a b) eqn:E; try discriminate.
    intros _. f_equal. now apply String.compare_eq_iff.
Qed.

Lemma comparePart_range p q r : comparePart p q = Some r -> r = 1 \/ r = -1.
Proof.
  destruct p as [a | a], q as [b | b]; simpl.
  - destruct (numEq a b); [discriminate |]. simpl.
    destruct (numGt a b); intros [= <-]; auto.
  - intros [= <-]; auto.
  - intros [= <-]; auto.
  - destruct (String.compare a b); [discriminate | |]; intros [= <-]; auto.
Qed.

Lemma comparePart_antisym p q : comparePart q p = Z.opp <$> comparePart p q.
Proof.
  destruct p as [a | a], q as [b | b]; simpl; try reflexivity.
  - destruct a as [x |], b as [y |]; simpl; try reflexivity.
    destruct (Z.eqb_spec x y), (Z.eqb_spec y x); try congruence; [reflexivity |].
    simpl. destruct (Z.ltb_spec x y), (Z.ltb_spec y x); try reflexivity; lia.
  - rewrite (String.compare_antisym a b). destruct (String.compare b a); reflexivity.
Qed.

Lemma string_compare_lt_trans a b c :
  String.compare a b = Lt -> String.compare b c = Lt -> String.compare a c = Lt.
Proof.
  intros Hab Hbc.
  assert (Hle : String.compare a c <> Gt)
    by (apply (ListStateFacts.string_compare_trans a b c); congruence).
  destruct (String.compare a c) eqn:Hac; [| reflexivity | congruence].
  apply String.compare_eq_iff in Hac. subst c.
  rewrite (String.compare_antisym a b), Hbc in Hab. discriminate.
Qed.

Lemma comparePart_trans p q s :
  comparePart p q = Some (-1) -> comparePart q s = Some (-1) ->
  comparePart p s = Some (-1).
Proof.
  destruct p as [a | a], q as [b | b], s as [c | c]; simpl; try discriminate;
    try reflexivity.
  - destruct a as [x |], b as [y |], c as [z |]; simpl; try discriminate;
      try reflexivity.
    destruct (Z.eqb_spec x y), (Z.eqb_spec y z), (Z.eqb_spec x z); simpl;
      try discriminate;
      destruct (Z.ltb_spec y x), (Z.ltb_spec z y), (Z.ltb_spec z x);
      try discriminate; try reflexivity; lia.
  - destruct (String.compare a b) eqn:Hab; try discriminate.
    destruct (String.compare b c) eqn:Hbc; try discriminate.
    now rewrite (string_compare_lt_trans a b c).
Qed.

Lemma compareFrom_range n : forall i a b,
  compareFrom n i a b = 0 \/ compareFrom n i a b = 1 \/ compareFrom n i a b = -1.
Proof.
  induction n as [| n IH]; intros i a b; simpl; [now left |].
  destruct (comparePart (partAt a i) (partAt b i)) as [r |] eqn:E; [| apply IH].
  right. now apply (comparePart_range _ _ _ E).
Qed.

Lemma compareFrom_refl n : forall i a, compareFrom n i a a = 0.
Proof.
  induction n as [| n IH]; intros i a; simpl; [reflexivity |].
  now rewrite comparePart_refl.
Qed.

Lemma compareFrom_antisym n : forall i a b,
  compareFrom n i b a = - compareFrom n i a b.
Proof.
  induction n as [| n IH]; intros i a b; simpl; [reflexivity |].
  rewrite (comparePart_antisym (partAt a i) (partAt b i)).
  destruct (comparePart (partAt a i) (partAt b i)); simpl; [reflexivity | apply IH].
Qed.

Lemma compareFrom_trans n : forall i a b c,
  compareFrom n i a b <= 0 -> compareFrom n i b c <= 0 -> compareFrom n i a c <= 0.
Proof.
  induction n as [| n IH]; intros i a b c; simpl; [lia |].
  destruct (comparePart (partAt a i) (partAt b i)) as [r1 |] eqn:Eab.
  - intros Hr1. destruct (comparePart_range _ _ _ Eab) as [-> | ->]; [lia |].
    destruct (comparePart (partAt b i) (partAt c i)) as [r2 |] eqn:Ebc.
    + intros Hr2. destruct (comparePart_range _ _ _ Ebc) as [-> | ->]; [lia |].
      rewrite (comparePart_trans _ _ _ Eab Ebc). lia.
    + apply comparePart_None in Ebc. rewrite <- Ebc, Eab. lia.
  - apply comparePart_None in Eab. rewrite Eab.
    destruct (comparePart (partAt b i) (partAt c i)) as [r2 |]; [tauto |].
    apply IH.
Qed.

Lemma partAt_beyond a i : (List.length a <= i)%nat -> partAt a i = PNumber (Finite 0).
Proof. apply nth_overflow. Qed.

(** Rounds beyond the end of both lists compare 0 with 0. *)
Lemma compareFrom_beyond k : forall i a b,
  (List.length a <= i)%nat -> (List.length b <= i)%nat -> compareFrom k i a b = 0.
Proof.
  induction k as [| k IH]; intros i a b Ha Hb; simpl; [reflexivity |].
  rewrite (partAt_beyond a i Ha), (partAt_beyond b i Hb). simpl.
  apply IH; lia.
Qed.

Lemma compareFrom_more n : forall i k a b,
  (List.length a <= i + n)%nat -> (List.length b <= i + n)%nat ->
  compareFrom (n + k) i a b = compareFrom n i a b.
Proof.
  induction n as [| n IH]; intros i k a b Ha Hb.
  - simpl. apply compareFrom_beyond; lia.
  - simpl. destruct (comparePart (partAt a i) (partAt b i)); [reflexivity |].
    apply IH; lia.
Qed.

Lemma compareParts_rounds N a b :
  (Nat.max (List.length a) (List.length b) <= N)%nat ->
  compareParts a b = compareFrom N 0 a b.
Proof.
  intros H. unfold compareParts.
  replace N with (Nat.max (List.length a) (List.length b)
                  + (N - Nat.max (List.length a) (List.length b)))%nat at 1 by lia.
  symmetry. apply compareFrom_more; lia.
Qed.

Lemma compareFrom_ext n : forall i a a' b b',
  (forall j, partAt a j = partAt a' j) -> (forall j, partAt b j = partAt b' j) ->
  compareFrom n i a b = compareFrom n i a' b'.
Proof.
  induction n as [| n IH]; intros i a a' b b' Ha Hb; simpl; [reflexivity |].
  rewrite (Ha i), (Hb i). destruct (comparePart _ _); [reflexivity |]. now apply IH.
Qed.

Lemma partAt_trailing_zero a j : partAt (a ++ [PNumber (Finite 0)]) j = partAt a j.
Proof.
  unfold partAt. destruct (Nat.lt_ge_cases j (List.length a)) as [Hlt | Hge].
  - now apply app_nth1.
  - rewrite (nth_overflow a _ Hge), app_nth2 by lia.
    destruct (j - List.length a)%nat as [| [| m]]; reflexivity.
Qed.

Lemma compareParts_trailing_zero a b :
  compareParts (a ++ [PNumber (Finite 0)]) b = compareParts a b.
Proof.
  set (N := Nat.max (S (List.length a)) (List.length b)).
  rewrite (compareParts_rounds N), (compareParts_rounds N a b);
    [| subst N; lia | subst N; rewrite length_app; simpl; lia].
  apply compareFrom_ext; [apply partAt_trailing_zero | reflexivity].
Qed.

Lemma split_nonempty v : split v <> [].
Proof.
  destruct v as [| c v]; simpl; [discriminate |].
  destruct (isSeparator c); [discriminate |]. destruct (split v); discriminate.
Qed.

Lemma split_app v c w :
  isSeparator c = true -> split (v ++ String c w) = split v ++ split w.
Proof.
  intros Hc. induction v as [| d v IH]; simpl.
  - now rewrite Hc.
  - destruct (isSeparator d); [now rewrite IH |].
    rewrite IH. pose proof (split_nonempty v).
    destruct (split v) as [| p ps]; [contradiction | reflexivity].
Qed.

Lemma compareVersions_antisym toNumber v1 v2 :
  compareVersions toNumber v2 v1 = - compareVersions toNumber v1 v2.
Proof.
  unfold compareVersions, compareParts. rewrite Nat.max_comm. apply compareFrom_antisym.
Qed.

Lemma compareVersions_trans toNumber v1 v2 v3 :
  compareVersions toNumber v1 v2 <= 0 -> compareVersions toNumber v2 v3 <= 0 ->
  compareVersions toNumber v1 v3 <= 0.
Proof.
  unfold compareVersions.
  set (a := normalize toNumber v1). set (b := normalize toNumber v2).
  set (c := normalize toNumber v3).
  set (N := Nat.max (List.length a) (Nat.max (List.length b) (List.length c))).
  rewrite (compareParts_rounds N a b), (compareParts_rounds N b c),
    (compareParts_rounds N a c) by (subst N; lia).
  apply compareFrom_trans.
Qed.

(** X18.  [compareVersions] is a consistent comparator, whatever the parts
    of the two strings are: it returns -1, 0 or 1, a version is equal to
    itself, swapping the arguments negates the result, and "not greater" is
    transitive. *)
Theorem compareVersions_is_consistent (toNumber : string -> option Num) :
  (forall v1 v2,
      compareVersions toNumber v1 v2 = 0 \/ compareVersions toNumber v1 v2 = 1
      \/ compareVersions toNumber v1 v2 = -1)
  /\ (forall v, compareVersions toNumber v v = 0)
  /\ (forall v1 v2, compareVersions toNumber v2 v1 = - compareVersions toNumber v1 v2)
  /\ (forall v1 v2 v3,
         compareVersions toNumber v1 v2 <= 0 -> compareVersions toNumber v2 v3 <= 0 ->
         compareVersions toNumber v1 v3 <= 0).
Proof.
  split; [| split; [| split]].
  - intros v1 v2. apply compareFrom_range.
  - intros v. apply compareFrom_refl.
  - apply compareVersions_antisym.
  - apply compareVersions_trans.
Qed.

(** X19.  A trailing part [.0] does not change how a version compares, on
    either side, when [Number] reads the part [0] as zero. *)
Theorem compareVersions_ignores_trailing_zero
    (toNumber : string -> option Num) (v w : string)
    (Hzero : toNumber "0" = Some (Finite 0)) :
  compareVersions toNumber (v ++ ".0") w = compareVersions toNumber v w
  /\ compareVersions toNumber w (v ++ ".0") = compareVersions toNumber w v.
Proof.
  assert (Hn : normalize toNumber (v ++ ".0")
               = normalize toNumber v ++ [PNumber (Finite 0)]).
  { unfold normalize. rewrite (split_app v "."%char "0" eq_refl), List.map_app.
    simpl. now rewrite Hzero. }
  unfold compareVersions. rewrite Hn. split.
  - apply compareParts_trailing_zero.
  - unfold compareParts at 1. rewrite Nat.max_comm, compareFrom_antisym.
    fold (compareParts (normalize toNumber v ++ [PNumber (Finite 0)])
            (normalize toNumber w)).
    rewrite compareParts_trailing_zero. unfold compareParts.
    rewrite (Nat.max_comm (List.length (normalize toNumber w))).
    rewrite (compareFrom_antisym _ 0%nat (normalize toNumber w) (normalize toNumber v)).
    lia.
Qed.

Lemma compareVersions_ignores_trailing_zero_witness :
  compareVersions decimal ("2.1" ++ ".0") "2.1.0.0" = compareVersions decimal "2.1" "2.1.0.0"
  /\ compareVersions decimal "2.1.0.0" ("2.1" ++ ".0")
     = compareVersions decimal "2.1.0.0" "2.1".
Proof.
  apply (compareVersions_ignores_trailing_zero decimal "2.1" "2.1.0.0"). reflexivity.
Defined.

(** X21.  The version history comes newest first: the list that
    [getVersionHistory] returns holds the releases it was given, no release
    in it is older than one that follows it, and releases whose versions
    compare equal keep the order in which the response listed them. *)
Theorem getVersionHistory_newest_first
    (toNumber : string -> option Num) (versions : list Release) :
  let sorted := getVersionHistory toNumber versions in
  Permutation sorted versions
  /\ StronglySorted
       (fun a b => 0 <= compareVersions toNumber (version a) (version b)) sorted
  /\ (forall v,
         let same := fun r => compareVersions toNumber (version r) v =? 0 in
         List.filter same sorted = List.filter same versions).
Proof.
  cbv zeta. unfold getVersionHistory.
  set (cmp := fun a b : Release => - compareVersions toNumber (version a) (version b)).
  split; [apply SortFacts.sort_Permutation |]. split.
  - apply (SortFacts.StronglySorted_weaken (fun a b => cmp a b <= 0)).
    + intros a b H. subst cmp. cbv beta in H. lia.
    + apply SortFacts.sort_sorted; subst cmp; cbv beta.
      * intros a b H. rewrite (compareVersions_antisym toNumber (version a) (version b)).
        lia.
      * intros a b c Hab Hbc.
        pose proof (compareVersions_trans toNumber (version c) (version b) (version a)).
        rewrite (compareVersions_antisym toNumber (version a) (version b)) in *.
        rewrite (compareVersions_antisym toNumber (version b) (version c)) in *.
        rewrite (compareVersions_antisym toNumber (version a) (version c)) in *.
        lia.
  - intros v. apply SortFacts.sort_stable. subst cmp. cbv beta.
    intros a b Ha Hb. apply Z.eqb_eq in Ha, Hb.
    pose proof (compareVersions_trans toNumber (version b) v (version a)) as H.
    rewrite (compareVersions_antisym toNumber (version a) v) in H.
    rewrite (compareVersions_antisym toNumber (version a) (version b)) in H.
    lia.
Qed.

(** ** The normal form of a version *)

Lemma prefix_substring s : forall i, String.prefix (String.substring 0 i s) s = true.
Proof.
  induction s as [| c s IH]; intros [| i]; simpl; try reflexivity.
  destruct (ascii_dec c c); [apply IH | contradiction].
Qed.

Lemma prefix_trans a : forall b c,
  String.prefix a b = true -> String.prefix b c = true -> String.prefix a c = true.
Proof.
  induction a as [| x a IH]; intros [| y b] [| z c]; simpl; try congruence.
  destruct (ascii_dec x y), (ascii_dec y z); try congruence. subst.
  destruct (ascii_dec z z); [apply IH | contradiction].
Qed.

Lemma substring_of_prefix s : forall i j n,
  (j + n <= i)%nat ->
  String.substring j n (String.substring 0 i s) = String.substring j n s.
Proof.
  induction s as [| c s IH]; intros i j n H.
  - destruct i; reflexivity.
  - destruct i as [| i].
    + assert (j = 0%nat) by lia. assert (n = 0%nat) by lia. subst. reflexivity.
    + simpl. destruct j as [| j].
      * destruct n as [| n]; [reflexivity |]. f_equal. apply IH. lia.
      * apply IH. lia.
Qed.

(** An occurrence in a prefix is an occurrence in the string. *)
Lemma occurs_in_prefix sep s i j :
  sep <> "" ->
  String.index 0 sep (String.substring 0 i s) = Some j ->
  String.substring j (String.length sep) s = sep /\ (j < i)%nat.
Proof.
  intros Hsep Hj. apply String.index_correct1 in Hj.
  pose proof (f_equal String.length Hj) as Hlen.
  rewrite !RankingFacts.substring_length in Hlen.
  assert (String.length sep <> 0%nat) by (destruct sep; [contradiction | discriminate]).
  split; [| lia]. rewrite <- Hj at 2. symmetry. apply substring_of_prefix. lia.
Qed.

Lemma absent_prefix sep s i :
  sep <> "" -> absent sep s -> absent sep (String.substring 0 i s).
Proof.
  unfold absent. intros Hsep Hs.
  destruct (String.index 0 sep (String.substring 0 i s)) as [j |] eqn:E; [| reflexivity].
  apply (occurs_in_prefix sep s i j Hsep) in E as [E _].
  exfalso. apply (String.index_correct3 0 j sep s Hs Hsep); [lia | exact E].
Qed.

Lemma cutAt_substring sep s : exists i, cutAt sep s = String.substring 0 i s.
Proof.
  unfold cutAt. destruct (String.index 0 sep s) as [i |]; [now exists i |].
  exists (String.length s). symmetry. apply RankingOrderFacts.substring_all.
Qed.

Lemma cutAt_absent sep s : sep <> "" -> absent sep (cutAt sep s).
Proof.
  intros Hsep. unfold cutAt, absent.
  destruct (String.index 0 sep s) as [i |] eqn:Ei; [| exact Ei].
  destruct (String.index 0 sep (String.substring 0 i s)) as [j |] eqn:E; [| reflexivity].
  apply (occurs_in_prefix sep s i j Hsep) in E as [E Hlt].
  exfalso. apply (String.index_correct2 0 i sep s Ei j); [lia | exact Hlt | exact E].
Qed.

Lemma cutAt_keeps_absent sep sep' s :
  sep' <> "" -> absent sep' s -> absent sep' (cutAt sep s).
Proof.
  intros Hsep' Hs. destruct (cutAt_substring sep s) as [i ->]. now apply absent_prefix.
Qed.

Lemma cutAt_prefix sep s : String.prefix (cutAt sep s) s = true.
Proof. destruct (cutAt_substring sep s) as [i ->]. apply prefix_substring. Qed.

Lemma cuts_prefix ms : forall s,
  String.prefix (List.fold_left (fun normalized sep => cutAt sep normalized) ms s) s = true.
Proof.
  induction ms as [| m ms IH]; intros s; simpl; [apply RankingOrderFacts.prefix_refl |].
  eapply prefix_trans; [apply IH | apply cutAt_prefix].
Qed.

Lemma cuts_keep_absent sep ms : forall s,
  sep <> "" -> absent sep s ->
  absent sep (List.fold_left (fun normalized sep => cutAt sep normalized) ms s).
Proof.
  induction ms as [| m ms IH]; intros s Hsep Hs; simpl; [exact Hs |].
  apply IH; [exact Hsep |]. now apply cutAt_keeps_absent.
Qed.

Lemma cuts_absent ms : forall s,
  Forall (fun m => m <> "") ms ->
  Forall (fun m => absent m (List.fold_left (fun normalized sep => cutAt sep normalized) ms s))
    ms.
Proof.
  induction ms as [| m ms IH]; intros s Hms; simpl; constructor.
  - apply Forall_cons in Hms as [Hm _].
    apply cuts_keep_absent; [exact Hm |]. now apply cutAt_absent.
  - apply IH. now apply Forall_cons in Hms as [_ Hms].
Qed.

Lemma cuts_id ms : forall s,
  Forall (fun m => absent m s) ms ->
  List.fold_left (fun normalized sep => cutAt sep normalized) ms s = s.
Proof.
  induction ms as [| m ms IH]; intros s Hms; simpl; [reflexivity |].
  apply Forall_cons in Hms as [Hm Hms].
  assert (cutAt m s = s) as -> by (unfold cutAt; now rewrite Hm).
  now apply IH.
Qed.

Lemma markers_nonempty : Forall (fun m => m <> "") markers.
Proof. repeat constructor; discriminate. Qed.

(** X20.  [normalizeVersion] returns the beginning of the version, and what
    it returns holds none of the markers [.post], [.a], [-a], ..., [.pre],
    [-pre] any more; normalising a normalised version changes nothing. *)
Theorem normalizeVersion_strips_every_marker (version : string) :
  String.prefix (normalizeVersion version) version = true
  /\ Forall (fun m => absent m (normalizeVersion version)) markers
  /\ normalizeVersion (normalizeVersion version) = normalizeVersion version.
Proof.
  assert (Habs : Forall (fun m => absent m (normalizeVersion version)) markers).
  { unfold normalizeVersion. destruct (String.eqb version "") eqn:E.
    - eapply Forall_impl; [apply markers_nonempty |].
      intros m Hm. destruct m; [contradiction | reflexivity].
    - apply cuts_absent, markers_nonempty. }
  split; [| split; [exact Habs |]].
  - unfold normalizeVersion. destruct (String.eqb version ""); [now destruct version |].
    apply cuts_prefix.
  - unfold normalizeVersion at 1.
    destruct (String.eqb (normalizeVersion version) "") eqn:E.
    + apply String.eqb_eq in E. now rewrite E.
    + now apply cuts_id.
Qed.

End VersionsFacts.
